(** * TOD Markets API examples: Javascript/API.js and Javascript/websocket.js

    A shallow embedding of the two JavaScript example scripts and the
    properties their specification states about them.

    - [Module JS]        the JavaScript values the scripts handle
    - [Module Platform]  the pieces of Node's runtime the scripts call
                         (form-urlencoded query strings, URL objects,
                         fetch responses, the Pusher client's options)
    - [Module Script]    the two scripts, function by function
    - [Module Transport] what the Pusher client does with the object the
                         script builds (delivery of inbound events, the
                         private-channel authorization call)
    - [Module CredentialCache] the expiry check of the specification
    - [Module Scenario]  the concrete runs the examples are taken from
    - [Module Observe]   the vocabulary of the statements
    - [Module Shape]     what a run adds to the trace and leaves alone
    - the properties, grouped by the function they are about. *)

From Stdlib Require Import String Ascii List ZArith Lia Bool DecimalString.
Import ListNotations.
Open Scope string_scope.
Set Warnings "-register-all".

(* ================================================================== *)
(** ** JavaScript values *)
(* ================================================================== *)

Module JS.

(** The values that reach the scripts: what [JSON.parse] can return, plus
    [undefined].  A number is carried by its canonical rendering (the
    string [String(n)] returns: ["42"], ["10.66"], ["NaN"]); the scripts
    never compute with the numbers they are handed, they only test them,
    print them and copy them.  An object is its list of own enumerable
    properties in the order [Object.entries] yields them, keys distinct. *)
Inductive Value : Type :=
  | JUndefined
  | JNull
  | JBool (b : bool)
  | JNum (repr : string)
  | JStr (s : string)
  | JArr (elems : list Value)
  | JObj (props : list (string * Value)).

(** Errors a [throw] or a rejected promise can carry. *)
Inductive Error : Type :=
  | TypeError (msg : string)
  | SyntaxError (msg : string)
  | PlainError (msg : string)
  | HostError (msg : string)
  | ReferenceError (msg : string).

Fixpoint value_eqb (a b : Value) {struct a} : bool :=
  let fix elems_eqb (l1 l2 : list Value) {struct l1} : bool :=
    match l1, l2 with
    | [], [] => true
    | x :: l1', y :: l2' => value_eqb x y && elems_eqb l1' l2'
    | _, _ => false
    end in
  let fix props_eqb (l1 l2 : list (string * Value)) {struct l1} : bool :=
    match l1, l2 with
    | [], [] => true
    | (k1, x) :: l1', (k2, y) :: l2' =>
        String.eqb k1 k2 && value_eqb x y && props_eqb l1' l2'
    | _, _ => false
    end in
  match a, b with
  | JUndefined, JUndefined => true
  | JNull, JNull => true
  | JBool x, JBool y => Bool.eqb x y
  | JNum x, JNum y => String.eqb x y
  | JStr x, JStr y => String.eqb x y
  | JArr l1, JArr l2 => elems_eqb l1 l2
  | JObj l1, JObj l2 => props_eqb l1 l2
  | _, _ => false
  end.

(** [if (v)]: the falsy values are undefined, null, false, 0, NaN and the
    empty string. *)
Definition truthy (v : Value) : bool :=
  match v with
  | JUndefined | JNull => false
  | JBool b => b
  | JNum r => negb (String.eqb r "0" || String.eqb r "NaN")
  | JStr s => negb (String.eqb s EmptyString)
  | JArr _ | JObj _ => true
  end.

(** [v === undefined || v === null] *)
Definition nullish (v : Value) : bool :=
  match v with
  | JUndefined | JNull => true
  | _ => false
  end.

Definition join (sep : string) (l : list string) : string :=
  String.concat sep l.

(** The text [String(v)] returns when it returns one (see [ToString]
    below for when it does).  An array prints its elements separated by
    commas, a null or undefined element printing as nothing; any other
    object prints as ["[object Object]"]. *)
Fixpoint to_string (v : Value) : string :=
  match v with
  | JUndefined => "undefined"
  | JNull => "null"
  | JBool true => "true"
  | JBool false => "false"
  | JNum r => r
  | JStr s => s
  | JArr l =>
      join "," (map (fun e => if nullish e then EmptyString else to_string e) l)
  | JObj _ => "[object Object]"
  end.

(** Own-property lookup in a property list. *)
Fixpoint lookup (k : string) (props : list (string * Value)) : option Value :=
  match props with
  | [] => None
  | (k', v) :: rest => if String.eqb k k' then Some v else lookup k rest
  end.

(** Whether [v] can be turned into a text.  The conversion of an object
    calls its [toString]: an object without a property of that name of
    its own inherits the one that answers ["[object Object]"]; one that
    has such a property holds a value there, not a function, and the
    conversion then finds nothing to call that returns a primitive.  An
    array converts its elements in turn. *)
Fixpoint convertible (v : Value) : bool :=
  match v with
  | JArr l => forallb convertible l
  | JObj props =>
      match lookup "toString" props with
      | Some _ => false
      | None => true
      end
  | _ => true
  end.

(** [String(v)] and the conversion inside a template literal: the text,
    or the TypeError of a value that cannot be converted. *)
Definition ToString (v : Value) : Error + string :=
  if convertible v then inr (to_string v)
  else inl (TypeError "Cannot convert object to primitive value").

(** [v.k] for the property names the scripts read ([data], [id], [name],
    [channel_key], [channel_key_expiry], [pusher_host], [pusher_key],
    [pusher_cluster]): none of them is inherited from a prototype of a
    JSON value, so the read is an own-property lookup on an object,
    [undefined] on a primitive or an array, and a TypeError on null and
    undefined. *)
Definition get (v : Value) (k : string) : Error + Value :=
  match v with
  | JUndefined =>
      inl (TypeError ("Cannot read properties of undefined (reading '" ++ k ++ "')"))
  | JNull =>
      inl (TypeError ("Cannot read properties of null (reading '" ++ k ++ "')"))
  | JObj props =>
      inr (match lookup k props with Some x => x | None => JUndefined end)
  | _ => inr JUndefined
  end.

Definition nat_to_string (n : nat) : string :=
  NilZero.string_of_uint (Nat.to_uint n).

Definition Z_to_string (z : Z) : string :=
  NilZero.string_of_int (Z.to_int z).

Fixpoint index_from (i : nat) (l : list Value) : list (string * Value) :=
  match l with
  | [] => []
  | x :: rest => (nat_to_string i, x) :: index_from (S i) rest
  end.

(** [Object.entries(v)] for a value whose [typeof] is ['object'] and that
    is not null: the properties of an object, the indexed elements of an
    array. *)
Definition entries (v : Value) : list (string * Value) :=
  match v with
  | JObj props => props
  | JArr l => index_from 0 l
  | _ => []
  end.

End JS.

(* ================================================================== *)
(** ** The runtime the scripts call into *)
(* ================================================================== *)

Module Platform.
Import JS.

(** *** application/x-www-form-urlencoded, as [URLSearchParams] uses it

    Strings are sequences of bytes (the UTF-8 form of the JavaScript
    string); the replacement of malformed UTF-8 by U+FFFD after
    percent-decoding is not represented. *)

Definition hex_digit (n : N) : ascii :=
  if (n <? 10)%N then ascii_of_N (48 + n) else ascii_of_N (55 + n).

Definition hex_value (c : ascii) : option N :=
  let n := N_of_ascii c in
  if ((48 <=? n) && (n <=? 57))%N then Some (n - 48)%N
  else if ((65 <=? n) && (n <=? 70))%N then Some (n - 55)%N
  else if ((97 <=? n) && (n <=? 102))%N then Some (n - 87)%N
  else None.

(** Bytes the serializer leaves alone: ASCII alphanumerics and [*-._]. *)
Definition urlencoded_safe (c : ascii) : bool :=
  let n := N_of_ascii c in
  (((48 <=? n) && (n <=? 57)) || ((65 <=? n) && (n <=? 90))
   || ((97 <=? n) && (n <=? 122))
   || (n =? 42) || (n =? 45) || (n =? 46) || (n =? 95))%N.

Fixpoint urlencoded_byte_serialize (s : string) : string :=
  match s with
  | EmptyString => EmptyString
  | String c rest =>
      let tail := urlencoded_byte_serialize rest in
      if Ascii.eqb c " " then String "+" tail
      else if urlencoded_safe c then String c tail
      else
        let n := N_of_ascii c in
        String "%" (String (hex_digit (n / 16)) (String (hex_digit (n mod 16)) tail))
  end.

Definition serialize_pair (kv : string * string) : string :=
  urlencoded_byte_serialize (fst kv) ++ "=" ++ urlencoded_byte_serialize (snd kv).

(** The urlencoded serializer: [name=value] joined by [&]. *)
Definition urlencoded_serialize (l : list (string * string)) : string :=
  join "&" (map serialize_pair l).

Fixpoint percent_decode (s : string) : string :=
  match s with
  | EmptyString => EmptyString
  | String c rest =>
      match rest with
      | String h (String l rest') =>
          match Ascii.eqb c "%", hex_value h, hex_value l with
          | true, Some x, Some y =>
              String (ascii_of_N (16 * x + y)) (percent_decode rest')
          | _, _, _ => String c (percent_decode rest)
          end
      | _ => String c (percent_decode rest)
      end
  end.

Fixpoint plus_to_space (s : string) : string :=
  match s with
  | EmptyString => EmptyString
  | String c rest =>
      String (if Ascii.eqb c "+" then " "%char else c) (plus_to_space rest)
  end.

Fixpoint split_on (sep : ascii) (s : string) : list string :=
  match s with
  | EmptyString => [EmptyString]
  | String c rest =>
      if Ascii.eqb c sep then EmptyString :: split_on sep rest
      else
        match split_on sep rest with
        | [] => [String c EmptyString]
        | seg :: segs => String c seg :: segs
        end
  end.

(** Cut a sequence at its first [=]: the name before it, the value after
    it; a sequence without [=] is a name with the empty value. *)
Fixpoint cut_at_equals (s : string) : string * string :=
  match s with
  | EmptyString => (EmptyString, EmptyString)
  | String c rest =>
      if Ascii.eqb c "=" then (EmptyString, rest)
      else let (n, v) := cut_at_equals rest in (String c n, v)
  end.

Definition decode_component (s : string) : string :=
  percent_decode (plus_to_space s).

(** The urlencoded parser: split at [&], skip empty sequences, cut each
    at its first [=], decode both halves. *)
Definition urlencoded_parse (s : string) : list (string * string) :=
  map (fun seq => let (n, v) := cut_at_equals seq in
                  (decode_component n, decode_component v))
      (filter (fun seq => negb (String.eqb seq EmptyString)) (split_on "&" s)).

Definition starts_with (p s : string) : bool := String.prefix p s.

(** [s.slice(1)] *)
Definition slice1 (s : string) : string :=
  match s with
  | EmptyString => EmptyString
  | String _ rest => rest
  end.

(** [new URLSearchParams(init)] for a string [init]: one leading [?] is
    removed before the string is parsed. *)
Definition URLSearchParams_of_string (init : string) : list (string * string) :=
  urlencoded_parse (if starts_with "?" init then slice1 init else init).

(** *** URL objects

    What [new URL(input, base)] resolves to, as far as the scripts look
    at it: everything up to the end of the path, the query ([None] when
    the URL has none) and the fragment with its [#] (empty when there is
    none). *)
Record URLRecord : Type := mkURLRecord {
  rec_base : string;
  rec_query : option string;
  rec_fragment : string
}.

(** The URL object: the record, and the list of its [searchParams]
    object.  The list is parsed from the query when the object is
    created; appending to it replaces the query by the serialized list. *)
Record URL : Type := mkURL {
  url_base : string;
  url_query : option string;
  url_fragment : string;
  url_params : list (string * string)
}.

Definition URL_of_record (r : URLRecord) : URL :=
  mkURL (rec_base r) (rec_query r) (rec_fragment r)
        (match rec_query r with
         | None => []
         | Some q => urlencoded_parse q
         end).

(** [url.searchParams.append(k, v)] *)
Definition searchParams_append (u : URL) (k v : string) : URL :=
  let l := (url_params u ++ [(k, v)])%list in
  mkURL (url_base u) (Some (urlencoded_serialize l)) (url_fragment u) l.

(** [url.toString()] *)
Definition href (u : URL) : string :=
  url_base u
  ++ match url_query u with None => EmptyString | Some q => "?" ++ q end
  ++ url_fragment u.

(** *** JSON.stringify

    Strings are quoted with the escapes JSON requires; a number that is
    not finite prints as null; inside an array undefined prints as null,
    inside an object a property whose value is undefined is left out. *)
Definition dquote : ascii := ascii_of_nat 34.
Definition backslash : ascii := ascii_of_nat 92.

Definition escape (c : ascii) : string :=
  let n := N_of_ascii c in
  if Ascii.eqb c dquote then String backslash (String dquote EmptyString)
  else if Ascii.eqb c backslash then String backslash (String backslash EmptyString)
  else if (n =? 8)%N then String backslash "b"
  else if (n =? 9)%N then String backslash "t"
  else if (n =? 10)%N then String backslash "n"
  else if (n =? 12)%N then String backslash "f"
  else if (n =? 13)%N then String backslash "r"
  else if (n <? 32)%N
       then String backslash
              ("u00" ++ String (hex_digit (n / 16))
                          (String (if (n mod 16 <? 10)%N then hex_digit (n mod 16)
                                   else ascii_of_N (87 + n mod 16)) EmptyString))
  else String c EmptyString.

Fixpoint escape_all (s : string) : string :=
  match s with
  | EmptyString => EmptyString
  | String c rest => escape c ++ escape_all rest
  end.

Definition quote (s : string) : string :=
  String dquote (escape_all s ++ String dquote EmptyString).

Definition finite (repr : string) : bool :=
  negb (String.eqb repr "NaN" || String.eqb repr "Infinity"
        || String.eqb repr "-Infinity").

(** [None] is the [undefined] that [JSON.stringify(undefined)] returns. *)
Fixpoint JSON_stringify (v : Value) : option string :=
  match v with
  | JUndefined => None
  | JNull => Some "null"
  | JBool true => Some "true"
  | JBool false => Some "false"
  | JNum r => Some (if finite r then r else "null")
  | JStr s => Some (quote s)
  | JArr l =>
      Some ("[" ++ join ","
                     (map (fun e => match JSON_stringify e with
                                    | Some t => t
                                    | None => "null"
                                    end) l)
                ++ "]")
  | JObj props =>
      Some ("{" ++ join ","
                     (flat_map (fun kv => match JSON_stringify (snd kv) with
                                          | Some t => [quote (fst kv) ++ ":" ++ t]
                                          | None => []
                                          end) props)
                ++ "}")
  end.

(** *** fetch *)

Record RequestInit : Type := mkRequestInit {
  req_method : string;
  req_redirect : string;
  req_headers : list (string * string);
  req_body : option string
}.

Record Response : Type := mkResponse {
  res_ok : bool;
  res_status : Z;
  res_statusText : string;
  res_text : Error + string        (* what [await res.text()] settles to *)
}.

Inductive FetchOutcome : Type :=
  | FetchRejects (e : Error)
  | FetchResolves (r : Response).

(** *** The options object handed to [new Pusher(key, options)] *)
Record PusherOptions : Type := mkPusherOptions {
  opt_cluster : Value;
  opt_wsHost : Value;
  opt_activityTimeout : Z;
  opt_pongTimeout : Z;
  opt_wsPort : Z;
  opt_forceTLS : bool;
  opt_authEndpoint : string;
  opt_auth_headers : list (string * string)
}.

(** *** What the scripts cannot decide themselves

    The resolution of a URL against a base, the JSON parser, the network
    and the Pusher library are given by the run: a [World] answers each
    call the scripts make to them. *)
Record World : Type := mkWorld {
  (** [new URL(input, base)]; [None] when it throws its TypeError *)
  URL_new : string -> string -> option URLRecord;
  (** [JSON.parse(text)], or the SyntaxError it throws *)
  JSON_parse : string -> Error + Value;
  (** [fetch(url, init)] *)
  fetch : string -> RequestInit -> FetchOutcome;
  (** [new Pusher(key, options)]: the error it throws, if it throws *)
  Pusher_new : Value -> PusherOptions -> option Error;
  (** [pusher.subscribe(name)]: the error it throws, if it throws *)
  Pusher_subscribe : Value -> option Error
}.

End Platform.

(* ================================================================== *)
(** ** The scripts *)
(* ================================================================== *)

Module Script.
Import JS Platform.

(** *** What a run leaves behind *)

(** An argument of [console.log] / [console.error]. *)
Inductive LogArg : Type :=
  | LText (s : string)
  | LValue (v : Value)
  | LError (e : Error).

(** The callbacks the scripts write down. *)
Inductive Handler : Type :=
  | OnUpdate      (* function (data) { console.log('Received update:', data); } *)
  | OnRow.        (* (e) => queueRowUpdate(e.data) *)

Inductive Event : Type :=
  | ConsoleLog (args : list LogArg)
  | ConsoleError (args : list LogArg)
  | Fetch (url : string) (init : RequestInit)
  | ProcessExit (code : Z)
  | PusherLogToConsole (b : bool)
  | NewPusher (key : Value) (options : PusherOptions)
  | Subscribe (channel : Value)
  | Bind (channel : Value) (event : string) (h : Handler)
  | Invoke (h : Handler) (arg : Value)
  | QueueRowUpdate (row : Value).

(** The module-level object [websocketDetails]. *)
Record WebsocketDetails : Type := mkDetails {
  id : Value;
  name : Value;
  channel_key : Value;
  channel_key_expiry : Value;
  pusher_host : Value;
  pusher_key : Value;
  pusher_cluster : Value
}.

(** A channel object of a Pusher client and the callbacks bound on it,
    in binding order. *)
Record Channel : Type := mkChannel {
  chan_name : Value;
  chan_bindings : list (string * Handler)
}.

(** A Pusher client as the script configured it. *)
Record Pusher : Type := mkPusher {
  app_key : Value;
  options : PusherOptions;
  subscriptions : list Channel
}.

(** The state of the Node process: the shared [websocketDetails] object,
    the Pusher clients constructed so far (newest first) and everything
    the process did that is visible from outside, oldest first. *)
Record Process : Type := mkProcess {
  websocketDetails : WebsocketDetails;
  clients : list Pusher;
  trace : list Event
}.

Definition initial_details : WebsocketDetails :=
  mkDetails JNull JNull JNull JNull JNull JNull JNull.

Definition initial_process : Process :=
  mkProcess initial_details [] [].

(** *** Control: return, throw, exit *)

Inductive Completion (A : Type) : Type :=
  | Returns (a : A)
  | Throws (e : Error)
  | Exits (code : Z).
Arguments Returns {A} a.
Arguments Throws {A} e.
Arguments Exits {A} code.

(** A piece of script: it runs from a process state and completes in a
    new one.  An [await] is sequential composition: nothing else runs in
    these scripts while a function waits, except where stated. *)
Definition M (A : Type) : Type := Process -> Completion A * Process.

Definition ret {A} (a : A) : M A := fun p => (Returns a, p).

Definition bind {A B} (c : M A) (k : A -> M B) : M B :=
  fun p =>
    match c p with
    | (Returns a, p') => k a p'
    | (Throws e, p') => (Throws e, p')
    | (Exits n, p') => (Exits n, p')
    end.

Notation "x <- c ;; k" := (bind c (fun x => k))
  (at level 61, c at next level, right associativity).
Notation "c ;; k" := (bind c (fun _ => k))
  (at level 61, right associativity).

Definition throw {A} (e : Error) : M A := fun p => (Throws e, p).

Definition lift {A} (r : Error + A) : M A :=
  match r with
  | inl e => throw e
  | inr a => ret a
  end.

(** [try { c } catch (e) { h(e) }], which is also [c.catch(h)] on a
    promise.  Leaving the process is not an exception. *)
Definition try_catch {A} (c : M A) (h : Error -> M A) : M A :=
  fun p =>
    match c p with
    | (Throws e, p') => h e p'
    | r => r
    end.

(** Run [c] and hand back how it settled. *)
Definition attempt {A} (c : M A) : M (Error + A) :=
  try_catch (a <- c ;; ret (inr a)) (fun e => ret (inl e)).

Definition emit (e : Event) : M unit :=
  fun p => (Returns tt,
            mkProcess (websocketDetails p) (clients p) (trace p ++ [e])%list).

Definition console_log (args : list LogArg) : M unit := emit (ConsoleLog args).
Definition console_error (args : list LogArg) : M unit := emit (ConsoleError args).

(** [process.exit(code)] *)
Definition process_exit {A} (code : Z) : M A :=
  fun p => (Exits code,
            mkProcess (websocketDetails p) (clients p)
                      (trace p ++ [ProcessExit code])%list).

Definition read_details : M WebsocketDetails :=
  fun p => (Returns (websocketDetails p), p).

Definition update_details (f : WebsocketDetails -> WebsocketDetails) : M unit :=
  fun p => (Returns tt, mkProcess (f (websocketDetails p)) (clients p) (trace p)).

Definition update_clients (f : list Pusher -> list Pusher) : M unit :=
  fun p => (Returns tt, mkProcess (websocketDetails p) (f (clients p)) (trace p)).

(** [v.k] inside a script *)
Definition prop (v : Value) (k : string) : M Value := lift (get v k).

(** *** API.js, lines 1-14: configuration *)

(** [process.env] once dotenv has loaded the .env file. *)
Record Env : Type := mkEnv {
  env_API_KEY : option string;
  env_DOMAIN_URL : option string
}.

(** The two module constants once both guards are passed. *)
Record Config : Type := mkConfig {
  API_KEY : string;
  DOMAIN_URL : string
}.

(** [!x] for an environment variable: unset or empty. *)
Definition missing (x : option string) : bool :=
  match x with
  | None => true
  | Some s => String.eqb s EmptyString
  end.

(** [if (!x) { console.error(msg); process.exit(1); }] *)
Definition require_setting (x : option string) (msg : string) : M string :=
  match x with
  | Some s =>
      if missing x then console_error [LText msg] ;; process_exit 1 else ret s
  | None => console_error [LText msg] ;; process_exit 1
  end.

Definition load_config (env : Env) : M Config :=
  k <- require_setting (env_API_KEY env)
         "Missing API_KEY in environment. Please set API_KEY in your .env file." ;;
  d <- require_setting (env_DOMAIN_URL env)
         "Missing DOMAIN_URL in environment. Please set DOMAIN_URL in your .env file." ;;
  ret (mkConfig k d).

(** *** API.js, lines 16-107: the two REST helpers *)

(** The [parameters] argument of [getTodMarketsEndpoint]: any value, or a
    [URLSearchParams] instance with its list of pairs. *)
Inductive Parameters : Type :=
  | ParamValue (v : Value)
  | ParamSearchParams (l : list (string * string)).

Definition append_pair (u : URL) (kv : string * string) : URL :=
  searchParams_append u (fst kv) (snd kv).

(** [l.forEach(x => f(url, x))] where the callback may throw: the first
    throw ends the loop and leaves it. *)
Fixpoint for_each {A : Type} (f : URL -> A -> Error + URL) (l : list A) (u : URL)
  : Error + URL :=
  match l with
  | [] => inr u
  | x :: rest =>
      match f u x with
      | inl e => inl e
      | inr u' => for_each f rest u'
      end
  end.

(** [url.searchParams.append(k, String(v))] *)
Definition append_converted (k : string) (u : URL) (v : Value) : Error + URL :=
  match ToString v with
  | inl e => inl e
  | inr s => inr (searchParams_append u k s)
  end.

(** The body of the [forEach] over [Object.entries(parameters)]. *)
Definition append_entry (u : URL) (kv : string * Value) : Error + URL :=
  let (k, v) := kv in
  if nullish v then inr u
  else
    match v with
    | JArr vals => for_each (append_converted k) vals u
    | _ => append_converted k u v
    end.

(** Lines 53-69: the query parameters appended to [url]. *)
Definition append_parameters (u : URL) (parameters : Parameters) : Error + URL :=
  match parameters with
  | ParamSearchParams l => inr (fold_left append_pair l u)
  | ParamValue v =>
      if truthy v then
        match v with
        | JArr _ | JObj _ => for_each append_entry (entries v) u
        | JStr s =>
            let qs := if starts_with "?" s then slice1 s else s in
            let sp := URLSearchParams_of_string qs in
            inr (fold_left append_pair sp u)
        | _ => inl (TypeError "parameters must be an object, string, or URLSearchParams")
        end
      else inr u
  end.

Definition set_header (k v : string) (h : list (string * string))
  : list (string * string) :=
  if existsb (fun kv => String.eqb (fst kv) k) h
  then map (fun kv => if String.eqb (fst kv) k then (k, v) else kv) h
  else (h ++ [(k, v)])%list.

Section Run.

Variable w : World.
Variable cfg : Config.

Definition requestOptions : RequestInit :=
  mkRequestInit "GET" "follow"
    [("Authorization", "Bearer " ++ API_KEY cfg);
     ("Content-Type", "application/json")]
    None.

(** [new URL(endpoint, DOMAIN_URL)] *)
Definition new_URL (endpoint : string) : M URL :=
  match URL_new w endpoint (DOMAIN_URL cfg) with
  | Some r => ret (URL_of_record r)
  | None => throw (TypeError "Invalid URL")
  end.

(** A request that has been handed to [fetch] and not yet answered. *)
Definition Pending : Type := (string * RequestInit)%type.

(** Lines 72-74 and 104-106 after the call to [fetch]: wait for the
    response, refuse a status that is not ok, read the body. *)
Definition settle (rq : Pending) : M string :=
  match fetch w (fst rq) (snd rq) with
  | FetchRejects e => throw e
  | FetchResolves res =>
      if negb (res_ok res)
      then throw (PlainError ("Request failed: " ++ Z_to_string (res_status res)
                              ++ " " ++ res_statusText res))
      else lift (res_text res)
  end.

(** [getTodMarketsEndpoint] up to and including its call to [fetch]. *)
Definition get_issue (endpoint : string) (parameters : Parameters) : M Pending :=
  u <- new_URL endpoint ;;
  u <- lift (append_parameters u parameters) ;;
  console_log [LText ("Fetching: " ++ href u)] ;;
  emit (Fetch (href u) requestOptions) ;;
  ret (href u, requestOptions).

Definition getTodMarketsEndpoint (endpoint : string) (parameters : Parameters)
  : M string :=
  rq <- get_issue endpoint parameters ;;
  settle rq.

(** [postTodMarketsEndpoint] up to and including its call to [fetch];
    an undefined [payload] takes the default [{}]. *)
Definition post_issue (endpoint : string) (payload : Value) : M Pending :=
  let payload := match payload with JUndefined => JObj [] | _ => payload end in
  u <- new_URL endpoint ;;
  let body := JSON_stringify payload in
  let opts :=
    mkRequestInit "POST" (req_redirect requestOptions)
      (set_header "Content-Type" "application/json" (req_headers requestOptions))
      body in
  emit (Fetch (href u) opts) ;;
  ret (href u, opts).

Definition postTodMarketsEndpoint (endpoint : string) (payload : Value)
  : M string :=
  rq <- post_issue endpoint payload ;;
  settle rq.

(** *** API.js, lines 109-124: the example calls *)

(** [.then(console.log).catch(console.error)] on a settled call. *)
Definition report (r : Error + string) : M unit :=
  match r with
  | inr body => console_log [LText body]
  | inl e => console_error [LError e]
  end.

Definition example_query : Parameters :=
  ParamValue (JObj [("markets", JStr "N Q"); ("periods", JStr "Q326");
                    ("bucket", JStr "EP MD")]).

Definition example_order : Value :=
  JObj [("asset_code", JStr "Q-Q127C6X"); ("type", JStr "BUY");
        ("price", JNum "10.66"); ("quantity", JNum "10");
        ("replace_match", JBool true); ("is_persistent", JBool false);
        ("status", JStr "HOLD")].

(** Both calls are started one after the other; each runs up to its
    [fetch] before the other starts.  A call that already failed reports
    first; when both wait for the network, [get_settles_first] tells
    which answer arrives first. *)
Definition API_main (get_settles_first : bool) : M unit :=
  g <- attempt (get_issue "/api/assets/prices" example_query) ;;
  q <- attempt (post_issue "/api/order" example_order) ;;
  let finish (rq : Pending) : M unit := r <- attempt (settle rq) ;; report r in
  match g, q with
  | inl e1, inl e2 => report (inl e1) ;; report (inl e2)
  | inl e1, inr rq => report (inl e1) ;; finish rq
  | inr rg, inl e2 => report (inl e2) ;; finish rg
  | inr rg, inr rq =>
      if get_settles_first then finish rg ;; finish rq
      else finish rq ;; finish rg
  end.

End Run.

(** Running API.js: the guards, then the example calls when the file is
    the entry point ([require.main === module]). *)
Definition API_js (w : World) (env : Env) (is_main get_settles_first : bool)
  : M Config :=
  cfg <- load_config env ;;
  (if is_main then API_main w cfg get_settles_first else ret tt) ;;
  ret cfg.

(** *** websocket.js, lines 134-157: module state *)

Definition ends_with (suffix s : string) : bool :=
  let n := String.length s in
  let m := String.length suffix in
  (m <=? n)%nat && String.eqb (substring (n - m) m s) suffix.

Definition drop_last (k : nat) (s : string) : string :=
  substring 0 (String.length s - k) s.

(** [s.replace(/\/api\/?$/, '')]: the pattern is anchored at the end of
    the string, so it can only match the suffix [/api/] or the suffix
    [/api], and a string has at most one of the two. *)
Definition remove_trailing_api (s : string) : string :=
  if ends_with "/api/" s then drop_last 5 s
  else if ends_with "/api" s then drop_last 4 s
  else s.

Definition set_id (v : Value) (d : WebsocketDetails) : WebsocketDetails :=
  mkDetails v (name d) (channel_key d) (channel_key_expiry d)
            (pusher_host d) (pusher_key d) (pusher_cluster d).
Definition set_name (v : Value) (d : WebsocketDetails) : WebsocketDetails :=
  mkDetails (id d) v (channel_key d) (channel_key_expiry d)
            (pusher_host d) (pusher_key d) (pusher_cluster d).
Definition set_channel_key (v : Value) (d : WebsocketDetails) : WebsocketDetails :=
  mkDetails (id d) (name d) v (channel_key_expiry d)
            (pusher_host d) (pusher_key d) (pusher_cluster d).
Definition set_channel_key_expiry (v : Value) (d : WebsocketDetails) : WebsocketDetails :=
  mkDetails (id d) (name d) (channel_key d) v
            (pusher_host d) (pusher_key d) (pusher_cluster d).
Definition set_pusher_host (v : Value) (d : WebsocketDetails) : WebsocketDetails :=
  mkDetails (id d) (name d) (channel_key d) (channel_key_expiry d)
            v (pusher_key d) (pusher_cluster d).
Definition set_pusher_key (v : Value) (d : WebsocketDetails) : WebsocketDetails :=
  mkDetails (id d) (name d) (channel_key d) (channel_key_expiry d)
            (pusher_host d) v (pusher_cluster d).
Definition set_pusher_cluster (v : Value) (d : WebsocketDetails) : WebsocketDetails :=
  mkDetails (id d) (name d) (channel_key d) (channel_key_expiry d)
            (pusher_host d) (pusher_key d) v.

(** [websocketDetails.f = details.f], seven times. *)
Definition setWebsocketDetails (details : Value) : M unit :=
  v <- prop details "id" ;; update_details (set_id v) ;;
  v <- prop details "name" ;; update_details (set_name v) ;;
  v <- prop details "channel_key" ;; update_details (set_channel_key v) ;;
  v <- prop details "channel_key_expiry" ;; update_details (set_channel_key_expiry v) ;;
  v <- prop details "pusher_host" ;; update_details (set_pusher_host v) ;;
  v <- prop details "pusher_key" ;; update_details (set_pusher_key v) ;;
  v <- prop details "pusher_cluster" ;; update_details (set_pusher_cluster v).

(** *** websocket.js, lines 172-183: the [channels] table

    The table is the object literal of line 173, the argument written
    for [ref].  Neither [ref] nor [queueRowUpdate] is defined in the
    script: evaluating line 172 fails (see [websocket_js] below), and a
    call of [queueRowUpdate] is recorded in the trace. *)
Record ChannelSpec : Type := mkChannelSpec {
  spec_name : WebsocketDetails -> Error + string;
  spec_instance : Value;
  spec_events : list (string * Handler)
}.

Definition channels : list (string * ChannelSpec) :=
  [("private-company",
    mkChannelSpec
      (fun d => match ToString (channel_key d) with
                | inl e => inl e
                | inr s => inr ("private-" ++ s)
                end)
      JNull
      [("App\Events\AssetPriceChangeEventCompany", OnRow);
       ("App\Events\OrderUpdated", OnRow);
       ("App\Events\OrderFilled", OnRow);
       ("App\Events\OrderCreated", OnRow)])].

(** The body of a callback. *)
Definition run_handler (h : Handler) (arg : Value) : M unit :=
  match h with
  | OnUpdate => console_log [LText "Received update:"; LValue arg]
  | OnRow => d <- prop arg "data" ;; emit (QueueRowUpdate d)
  end.

(** *** The calls into the Pusher library *)

Definition add_channel (n : Value) (c : Pusher) : Pusher :=
  if existsb (fun ch => String.eqb (to_string (chan_name ch)) (to_string n))
             (subscriptions c)
  then c
  else mkPusher (app_key c) (options c) (subscriptions c ++ [mkChannel n []])%list.

Definition add_binding (n : Value) (ev : string) (h : Handler) (c : Pusher) : Pusher :=
  mkPusher (app_key c) (options c)
    (map (fun ch =>
            if String.eqb (to_string (chan_name ch)) (to_string n)
            then mkChannel (chan_name ch) (chan_bindings ch ++ [(ev, h)])%list
            else ch)
         (subscriptions c)).

Definition on_newest (f : Pusher -> Pusher) (cs : list Pusher) : list Pusher :=
  match cs with
  | [] => []
  | c :: rest => f c :: rest
  end.

Section Websocket.

Variable w : World.
Variable cfg : Config.

Definition environmentURL : string := remove_trailing_api (DOMAIN_URL cfg).

(** [new Pusher(key, options)] *)
Definition new_Pusher (key : Value) (opts : PusherOptions) : M unit :=
  emit (NewPusher key opts) ;;
  match Pusher_new w key opts with
  | Some e => throw e
  | None => update_clients (cons (mkPusher key opts []))
  end.

(** [pusher.subscribe(name)] on the client just constructed; the channel
    object is known by its name. *)
Definition pusher_subscribe (n : Value) : M Value :=
  emit (Subscribe n) ;;
  match Pusher_subscribe w n with
  | Some e => throw e
  | None => update_clients (on_newest (add_channel n)) ;; ret n
  end.

(** [channel.bind(event, callback)] *)
Definition channel_bind (channel : Value) (ev : string) (h : Handler) : M unit :=
  emit (Bind channel ev h) ;;
  update_clients (on_newest (add_binding channel ev h)).

(** Lines 159-170. *)
Definition getWebsocketDetails : M Value :=
  try_catch
    (response <- getTodMarketsEndpoint w cfg "/api/company" (ParamValue JUndefined) ;;
     res <- lift (JSON_parse w response) ;;
     data <- prop res "data" ;;
     console_log [LText "Websocket Details:"; LValue data] ;;
     setWebsocketDetails data ;;
     ret res)
    (fun error =>
       console_error [LText "Error fetching websocket details:"; LError error] ;;
       ret JUndefined) ;;
  ret JUndefined.

(** Lines 185-210. *)
Definition establishWebSocketConnection : M Value :=
  getWebsocketDetails ;;
  emit (PusherLogToConsole true) ;;
  d <- read_details ;;
  new_Pusher (pusher_key d)
    (mkPusherOptions (pusher_cluster d) (pusher_host d) 30000 10000 80 false
       (environmentURL ++ "/broadcasting/auth")
       [("Authorization", "Bearer " ++ API_KEY cfg)]) ;;
  d <- read_details ;;
  channel <- pusher_subscribe (channel_key d) ;;
  channel_bind channel "update" OnUpdate ;;
  ret JUndefined.

End Websocket.

(** Running websocket.js: it loads API.js (not as the entry point),
    computes [environmentURL], creates [websocketDetails] with its seven
    nulls and defines the three functions above it; then line 172 calls
    [ref], a name nothing defines, and the ReferenceError ends the run
    before [establishWebSocketConnection] is defined or called. *)
Definition websocket_js (w : World) (env : Env) : M Value :=
  cfg <- API_js w env false false ;;
  update_details (fun _ => initial_details) ;;
  throw (ReferenceError "ref is not defined").

End Script.

(* ================================================================== *)
(** ** The transport boundary *)
(* ================================================================== *)

Module Transport.
Import JS Platform Script.

(** The callbacks an inbound event reaches on one client: those bound
    under the event's name on the channel of the event's name, in
    binding order. *)
Definition bound_handlers (c : Pusher) (channel event : string) : list Handler :=
  flat_map
    (fun ch =>
       if String.eqb (to_string (chan_name ch)) channel
       then map snd (filter (fun b => String.eqb (fst b) event) (chan_bindings ch))
       else [])
    (subscriptions c).

Fixpoint invoke_all (hs : list Handler) (payload : Value) : M unit :=
  match hs with
  | [] => ret tt
  | h :: rest =>
      emit (Invoke h payload) ;;
      run_handler h payload ;;
      invoke_all rest payload
  end.

(** The library receives [(channel, event, payload)] from the server and
    calls the callbacks bound for it, each with the payload. *)
Definition deliver (channel event : string) (payload : Value) : M unit :=
  fun p =>
    invoke_all (flat_map (fun c => bound_handlers c channel event) (clients p))
               payload p.

Record AuthRequest : Type := mkAuthRequest {
  auth_url : string;
  auth_method : string;
  auth_headers : list (string * string);
  auth_form : list (string * string)
}.

(** Modelled from the spec: the channel-authorization call, which the
    Pusher library makes and the scripts only configure.  Sections 4.2
    and 6: a POST to the authorization endpoint, form-encoded, with the
    configured headers, the socket id the transport was assigned and the
    name of the channel. *)
Definition authorization_request (c : Pusher) (socket_id channel_name : string)
  : AuthRequest :=
  mkAuthRequest
    (opt_authEndpoint (options c))
    "POST"
    (opt_auth_headers (options c))
    [("socket_id", socket_id); ("channel_name", channel_name)].

End Transport.

(* ================================================================== *)
(** ** The expiry check of the specification *)
(* ================================================================== *)

Module CredentialCache.
Import JS Script.

Section Expiry.

(** [Date.parse]: the instant a timestamp text denotes, [None] when the
    text is not a timestamp. *)
Variable Date_parse : string -> option Z.



End Expiry.

End CredentialCache.

(* ================================================================== *)
(** ** Concrete runs *)
(* ================================================================== *)

Module Scenario.
Import JS Platform Script.

Definition env : Env :=
  mkEnv (Some "secret-api-key") (Some "https://staging.todmarkets.com.au/api/").

Definition cfg : Config :=
  mkConfig "secret-api-key" "https://staging.todmarkets.com.au/api/".

Definition company_url : string := "https://staging.todmarkets.com.au/api/company".

(** The credential payload of the specification's scenario. *)
Definition credentials : Value :=
  JObj [("id", JStr "c1"); ("name", JStr "Acme"); ("channel_key", JStr "k1");
        ("channel_key_expiry", JStr "2099-01-01T00:00:00Z");
        ("pusher_host", JStr "h"); ("pusher_key", JStr "pk");
        ("pusher_cluster", JStr "eu")].


(** The scenario's payload with one property taken out. *)
Definition without (k : string) : Value :=
  match credentials with
  | JObj props => JObj (filter (fun kv => negb (String.eqb (fst kv) k)) props)
  | v => v
  end.

Definition body_of (data : Value) : string :=
  match JSON_stringify (JObj [("data", data)]) with
  | Some t => t
  | None => EmptyString
  end.

(** Node resolving the two endpoints the runs below ask for against the
    staging base URL. *)
Definition resolve (input base : string) : option URLRecord :=
  if String.eqb base "https://staging.todmarkets.com.au/api/" then
    if String.eqb input "/api/company"
    then Some (mkURLRecord company_url None EmptyString)
    else if String.eqb input "/company"
    then Some (mkURLRecord "https://staging.todmarkets.com.au/company" None EmptyString)
    else None
  else None.

(** The Pusher constructor refuses a missing app key. *)
Definition construct (key : Value) (_ : PusherOptions) : option Error :=
  if nullish key
  then Some (PlainError "You must pass your app key when you instantiate Pusher.")
  else None.

(** A world whose company-details endpoint answers [outcome], and whose
    JSON parser reads the body of [data] back as the response
    [{data: data}]. *)
Definition world (outcome : FetchOutcome) (data : Value) : World :=
  mkWorld resolve
    (fun text => if String.eqb text (body_of data)
                 then inr (JObj [("data", data)])
                 else inl (SyntaxError "Unexpected token in JSON"))
    (fun url _ => if String.eqb url company_url then outcome
                  else FetchRejects (HostError "fetch failed"))
    construct
    (fun _ => None).

Definition answers (data : Value) : World :=
  world (FetchResolves (mkResponse true 200 "OK" (inr (body_of data)))) data.

Definition unreachable : World :=
  world (FetchRejects (HostError "fetch failed")) JUndefined.

Definition refused : World :=
  world (FetchResolves (mkResponse false 401 "Unauthorized" (inr "Unauthenticated.")))
        JUndefined.

(** The scenario's credentials once stored. *)
Definition stored : WebsocketDetails :=
  mkDetails (JStr "c1") (JStr "Acme") (JStr "k1") (JStr "2099-01-01T00:00:00Z")
            (JStr "h") (JStr "pk") (JStr "eu").

(** A process that already holds the scenario's credentials. *)
Definition connected_before : Process := mkProcess stored [] [].

Definition order_filled : Value := JObj [("id", JNum "42")].

(** Node resolving the endpoints of the example calls of API.js as
    well. *)
Definition resolve_examples (input base : string) : option URLRecord :=
  if String.eqb base "https://staging.todmarkets.com.au/api/" then
    if String.eqb input "/api/assets/prices"
    then Some (mkURLRecord "https://staging.todmarkets.com.au/api/assets/prices"
                           None EmptyString)
    else if String.eqb input "/api/order"
    then Some (mkURLRecord "https://staging.todmarkets.com.au/api/order"
                           None EmptyString)
    else resolve input base
  else None.

(** A world in which every request is answered with an empty list. *)
Definition reachable : World :=
  mkWorld resolve_examples
    (fun _ => inr (JArr []))
    (fun _ _ => FetchResolves (mkResponse true 200 "OK" (inr "[]")))
    construct
    (fun _ => None).

End Scenario.

(* ================================================================== *)
(** ** What the properties observe *)
(* ================================================================== *)

Module Observe.
Import JS Platform Script.

Definition is_NewPusher (e : Event) : bool :=
  match e with NewPusher _ _ => true | _ => false end.

Definition is_Fetch (e : Event) : bool :=
  match e with Fetch _ _ => true | _ => false end.

Definition is_Invoke (e : Event) : bool :=
  match e with Invoke _ _ => true | _ => false end.

Definition is_ConsoleError (e : Event) : bool :=
  match e with ConsoleError _ => true | _ => false end.

(** How many times the Pusher constructor was called. *)
Definition constructions (t : list Event) : nat :=
  List.length (filter is_NewPusher t).

(** How many times [h] was called with [arg]. *)
Definition invocations (h : Handler) (arg : Value) (t : list Event) : nat :=
  List.length
    (filter (fun e => match e with
                      | Invoke OnUpdate a =>
                          match h with OnUpdate => value_eqb a arg | _ => false end
                      | Invoke OnRow a =>
                          match h with OnRow => value_eqb a arg | _ => false end
                      | _ => false
                      end) t).

(** A field that is there and not empty. *)
Definition present (v : Value) : bool :=
  match v with
  | JUndefined | JNull => false
  | JStr s => negb (String.eqb s EmptyString)
  | _ => true
  end.

Definition required_fields : list string :=
  ["id"; "name"; "channel_key"; "channel_key_expiry";
   "pusher_host"; "pusher_key"; "pusher_cluster"].

(** [data.k], undefined where the read would throw. *)
Definition field (data : Value) (k : string) : Value :=
  match get data k with
  | inr v => v
  | inl _ => JUndefined
  end.

(** A payload with every required field present and not empty. *)
Definition complete_payload (data : Value) : bool :=
  negb (nullish data) && forallb (fun k => present (field data k)) required_fields.

(** A credential set with every field present and not empty. *)
Definition complete (d : WebsocketDetails) : bool :=
  present (id d) && present (name d) && present (channel_key d)
  && present (channel_key_expiry d) && present (pusher_host d)
  && present (pusher_key d) && present (pusher_cluster d).

(** The credential set whose fields are those of [data]. *)
Definition copied (data : Value) : WebsocketDetails :=
  mkDetails (field data "id") (field data "name") (field data "channel_key")
            (field data "channel_key_expiry") (field data "pusher_host")
            (field data "pusher_key") (field data "pusher_cluster").

Definition with_trace (p : Process) (t : list Event) : Process :=
  mkProcess (websocketDetails p) (clients p) t.

Definition with_details (p : Process) (d : WebsocketDetails) : Process :=
  mkProcess d (clients p) (trace p).

(** The line the [catch] of [getWebsocketDetails] prints. *)
Definition fetch_error_line (e : Error) : Event :=
  ConsoleError [LText "Error fetching websocket details:"; LError e].

(** The line its [then] prints. *)
Definition details_line (data : Value) : Event :=
  ConsoleLog [LText "Websocket Details:"; LValue data].

(** The GET that [getWebsocketDetails] awaits. *)
Definition company_GET (w : World) (cfg : Config) : M string :=
  getTodMarketsEndpoint w cfg "/api/company" (ParamValue JUndefined).

(** The payload a refresh gets hold of: the [data] of the parsed body,
    when the GET returned a body, the body parsed, and [data] is neither
    null nor undefined. *)
Definition delivered (w : World) (cfg : Config) (p : Process) : option Value :=
  match company_GET w cfg p with
  | (Returns body, _) =>
      match JSON_parse w body with
      | inr res =>
          match get res "data" with
          | inr data => if nullish data then None else Some data
          | inl _ => None
          end
      | inl _ => None
      end
  | _ => None
  end.

(** [x] occurs in [v]: it is [v] or occurs in an element or a property
    value of [v]. *)
Fixpoint occurs (x v : Value) : bool :=
  value_eqb x v
  || match v with
     | JArr l => existsb (occurs x) l
     | JObj props => existsb (fun kv => occurs x (snd kv)) props
     | _ => false
     end.

Definition logged_values (t : list Event) : list Value :=
  flat_map (fun e =>
              match e with
              | ConsoleLog args | ConsoleError args =>
                  flat_map (fun a => match a with LValue v => [v] | _ => [] end) args
              | _ => []
              end) t.

(** The value [x] shows up in something the process printed. *)
Definition printed (x : Value) (t : list Event) : bool :=
  existsb (occurs x) (logged_values t).

(** What a run that stops at a configuration guard does: one line on
    the error stream, then the exit. *)
Definition startup_failure (msg : string) : list Event :=
  [ConsoleError [LText msg]; ProcessExit 1].

(** The URL object after the pairs [l] have been appended, in order. *)
Definition appended (u : URL) (l : list (string * string)) : URL :=
  match l with
  | [] => u
  | _ => mkURL (url_base u) (Some (urlencoded_serialize (url_params u ++ l)%list))
               (url_fragment u) (url_params u ++ l)%list
  end.

(** The pairs an entry of a parameters object stands for: none when its
    value is undefined or null, the key once per element when its value
    is an array, the key once otherwise. *)
Definition query_pairs (kv : string * Value) : list (string * string) :=
  let (k, v) := kv in
  match v with
  | JUndefined | JNull => []
  | JArr vals => map (fun val => (k, to_string val)) vals
  | _ => [(k, to_string v)]
  end.

(** The TypeError of a value that has no text. *)
Definition unconvertible : Error :=
  TypeError "Cannot convert object to primitive value".

(** Every value of the object can be turned into a text. *)
Definition all_convertible (props : list (string * Value)) : bool :=
  forallb (fun kv => convertible (snd kv)) props.

(** The options [establishWebSocketConnection] builds from a credential
    set. *)
Definition pusher_options (cfg : Config) (d : WebsocketDetails) : PusherOptions :=
  mkPusherOptions (pusher_cluster d) (pusher_host d) 30000 10000 80 false
    (remove_trailing_api (DOMAIN_URL cfg) ++ "/broadcasting/auth")
    [("Authorization", "Bearer " ++ API_KEY cfg)].

End Observe.

(* ================================================================== *)
(** ** The shape of a run *)
(* ================================================================== *)

Module Shape.
Import JS Platform Script.

(** Whatever [c] adds to the trace satisfies [P]. *)
Definition grows {A : Type} (P : Event -> Prop) (c : M A) : Prop :=
  forall p, exists d, trace (snd (c p)) = (trace p ++ d)%list /\ Forall P d.

(** [c] leaves [websocketDetails] and the Pusher clients alone. *)
Definition keeps_state {A : Type} (c : M A) : Prop :=
  forall p,
    websocketDetails (snd (c p)) = websocketDetails p
    /\ clients (snd (c p)) = clients p.

(** [c] does not leave the process. *)
Definition stays {A : Type} (c : M A) : Prop :=
  forall p n, fst (c p) <> Exits n.

(** A request that carries the API key as bearer credential and
    announces JSON; any other event. *)
Definition authenticated (key : string) (e : Event) : Prop :=
  match e with
  | Fetch _ init =>
      In ("Authorization", "Bearer " ++ key) (req_headers init)
      /\ In ("Content-Type", "application/json") (req_headers init)
  | _ => True
  end.

(** A line on the console. *)
Definition is_console (e : Event) : bool :=
  match e with
  | ConsoleLog _ | ConsoleError _ => true
  | _ => false
  end.

Definition is_Subscribe (e : Event) : bool :=
  match e with Subscribe _ => true | _ => false end.

Definition is_Bind (e : Event) : bool :=
  match e with Bind _ _ _ => true | _ => false end.

(** The character [c] occurs in [s]. *)
Fixpoint contains (c : ascii) (s : string) : bool :=
  match s with
  | EmptyString => false
  | String c' rest => Ascii.eqb c' c || contains c rest
  end.

(** The three things the pattern of [remove_trailing_api] can take off. *)
Definition api_suffixes : list string := [EmptyString; "/api"; "/api/"].

End Shape.

(* ================================================================== *)
(** ** Properties *)
(* ================================================================== *)

Import JS Platform Script Observe Shape.

(** *** Running a script, one step at a time *)

Ltac step :=
  match goal with
  | |- context [match ?x with _ => _ end] =>
      match type of x with
      | _ => is_var x; destruct x
      | _ => let E := fresh "E" in destruct x eqn:E
      end
  end; simpl in *.

#[local] Arguments String.append : simpl never.

Ltac run_script :=
  unfold company_GET, getWebsocketDetails, getTodMarketsEndpoint, get_issue, settle,
    new_URL, setWebsocketDetails, prop, lift, try_catch, bind, ret, throw,
    console_log, console_error, emit, update_details in *;
  simpl in *.

Ltac monadic :=
  cbv beta iota delta
    [bind ret throw lift prop try_catch attempt emit console_log console_error
     update_details update_clients read_details process_exit setWebsocketDetails].

Ltac frame_done :=
  repeat split; try discriminate;
  try (eexists; split;
       [ rewrite <- ?app_assoc; try reflexivity; symmetry; apply app_nil_r
       | split; reflexivity ]).

(** *** The runtime functions on known inputs *)

Example parse_query :
  urlencoded_parse "a=1&&b=%41+c&d" = [("a", "1"); ("b", "A c"); ("d", EmptyString)].
Proof. reflexivity. Qed.

Example parse_lone_question : urlencoded_parse "?" = [("?", EmptyString)].
Proof. reflexivity. Qed.

Example searchParams_of_question_string :
  URLSearchParams_of_string "?limit=10" = [("limit", "10")]
  /\ URLSearchParams_of_string "limit=10" = [("limit", "10")]
  /\ URLSearchParams_of_string "??limit=10" = [("?limit", "10")].
Proof. repeat split. Qed.

Example serialize_reserved :
  urlencoded_serialize [("?a b", "1&2"); ("k", "x=y")] = "%3Fa+b=1%262&k=x%3Dy".
Proof. reflexivity. Qed.

Example string_of_array :
  to_string (JArr [JNum "1"; JNull; JStr "x"; JArr [JBool true; JUndefined]])
  = "1,,x,true,".
Proof. reflexivity. Qed.

Example staging_base_url :
  remove_trailing_api "https://staging.todmarkets.com.au/api/"
    = "https://staging.todmarkets.com.au"
  /\ remove_trailing_api "https://staging.todmarkets.com.au/api"
     = "https://staging.todmarkets.com.au"
  /\ remove_trailing_api "https://staging.todmarkets.com.au/myapi"
     = "https://staging.todmarkets.com.au/myapi"
  /\ remove_trailing_api "https://staging.todmarkets.com.au/api/v2"
     = "https://staging.todmarkets.com.au/api/v2".
Proof. repeat split. Qed.

(** The query of the example call in API.js. *)
Example example_query_url :
  option_map href
    (match append_parameters
             (URL_of_record
                (mkURLRecord "https://staging.todmarkets.com.au/api/assets/prices"
                             None EmptyString))
             example_query with
     | inr u => Some u
     | inl _ => None
     end)
  = Some "https://staging.todmarkets.com.au/api/assets/prices?markets=N+Q&periods=Q326&bucket=EP+MD".
Proof. reflexivity. Qed.

(** A parameters object with a null, an array and a number. *)
Example object_parameters :
  flat_map query_pairs
    [("limit", JNum "10"); ("skip", JNull); ("tag", JArr [JStr "a"; JNull; JNum "2"]);
     ("none", JArr []); ("all", JBool false)]
  = [("limit", "10"); ("tag", "a"); ("tag", "null"); ("tag", "2"); ("all", "false")].
Proof. reflexivity. Qed.

(** *** The GET behind a refresh *)

Lemma company_GET_frame (w : World) (cfg : Config) (p : Process) :
  websocketDetails (snd (company_GET w cfg p)) = websocketDetails p
  /\ clients (snd (company_GET w cfg p)) = clients p
  /\ (exists d, trace (snd (company_GET w cfg p)) = (trace p ++ d)%list
                /\ constructions d = 0
                /\ filter is_ConsoleError d = [])
  /\ (forall n, fst (company_GET w cfg p) <> Exits n).
Proof.
  run_script.
  destruct (URL_new w "/api/company" (DOMAIN_URL cfg)); simpl; [|frame_done].
  destruct (fetch w _ _) as [e|res]; simpl; [frame_done|].
  destruct (res_ok res); simpl; [|frame_done].
  destruct (res_text res); simpl; frame_done.
Qed.

(** [getWebsocketDetails], read off the outcome of its GET. *)
Lemma getWebsocketDetails_run (w : World) (cfg : Config) (p : Process) :
  getWebsocketDetails w cfg p =
  match company_GET w cfg p with
  | (Returns body, p1) =>
      match JSON_parse w body with
      | inl e =>
          (Returns JUndefined, with_trace p1 (trace p1 ++ [fetch_error_line e]))
      | inr res =>
          match get res "data" with
          | inl e =>
              (Returns JUndefined, with_trace p1 (trace p1 ++ [fetch_error_line e]))
          | inr data =>
              if nullish data
              then (Returns JUndefined,
                    with_trace p1 ((trace p1 ++ [details_line data])
                                   ++ [fetch_error_line
                                         (match get data "id" with
                                          | inl e => e
                                          | inr _ => TypeError EmptyString
                                          end)]))
              else (Returns JUndefined,
                    mkProcess (copied data) (clients p1)
                              (trace p1 ++ [details_line data]))
          end
      end
  | (Throws e, p1) =>
      (Returns JUndefined, with_trace p1 (trace p1 ++ [fetch_error_line e]))
  | (Exits n, p1) => (Exits n, p1)
  end%list.
Proof.
  unfold getWebsocketDetails. fold (company_GET w cfg).
  unfold try_catch at 1. unfold bind at 1. unfold bind at 1.
  destruct (company_GET w cfg p) as [[body|e|n] p1]; try reflexivity.
  monadic.
  destruct (JSON_parse w body) as [e|res]; try reflexivity.
  destruct (get res "data") as [e|data] eqn:Hdata; try reflexivity.
  monadic.
  destruct data; reflexivity.
Qed.

Lemma company_GET_never_exits (w : World) (cfg : Config) (p p1 : Process) (n : Z) :
  company_GET w cfg p <> (Exits n, p1).
Proof.
  intros H. destruct (company_GET_frame w cfg p) as (_ & _ & _ & Hn).
  apply (Hn n). now rewrite H.
Qed.

Lemma getWebsocketDetails_returns (w : World) (cfg : Config) (p : Process) :
  fst (getWebsocketDetails w cfg p) = Returns JUndefined.
Proof.
  rewrite getWebsocketDetails_run.
  destruct (company_GET w cfg p) as [[body|e|n] p1] eqn:E; try reflexivity.
  - destruct (JSON_parse w body) as [e|res]; try reflexivity.
    destruct (get _ _) as [e|data]; try reflexivity.
    destruct (nullish data); reflexivity.
  - exfalso. exact (company_GET_never_exits _ _ _ _ _ E).
Qed.

(** What a refresh leaves in [websocketDetails]. *)
Lemma getWebsocketDetails_store (w : World) (cfg : Config) (p : Process) :
  websocketDetails (snd (getWebsocketDetails w cfg p)) =
  match delivered w cfg p with
  | Some data => copied data
  | None => websocketDetails p
  end.
Proof.
  rewrite getWebsocketDetails_run. unfold delivered.
  destruct (company_GET_frame w cfg p) as (Hd & _ & _ & _).
  destruct (company_GET w cfg p) as [[body|e|n] p1]; simpl in *; auto.
  destruct (JSON_parse w body) as [e|res]; simpl; auto.
  destruct (get _ _) as [e|data]; simpl; auto.
  destruct (nullish data); simpl; auto.
Qed.

Lemma getWebsocketDetails_clients (w : World) (cfg : Config) (p : Process) :
  clients (snd (getWebsocketDetails w cfg p)) = clients p.
Proof.
  rewrite getWebsocketDetails_run.
  destruct (company_GET_frame w cfg p) as (_ & Hc & _ & _).
  destruct (company_GET w cfg p) as [[body|e|n] p1]; simpl in *; auto.
  destruct (JSON_parse w body) as [e|res]; simpl; auto.
  destruct (get _ _) as [e|data]; simpl; auto.
  destruct (nullish data); simpl; auto.
Qed.

Lemma constructions_app (t1 t2 : list Event) :
  constructions (t1 ++ t2) = constructions t1 + constructions t2.
Proof.
  unfold constructions. now rewrite filter_app, length_app.
Qed.

(** A refresh never calls the Pusher constructor. *)
Lemma getWebsocketDetails_constructions (w : World) (cfg : Config) (p : Process) :
  constructions (trace (snd (getWebsocketDetails w cfg p))) = constructions (trace p).
Proof.
  rewrite getWebsocketDetails_run.
  destruct (company_GET_frame w cfg p) as (_ & _ & (d & Ht & Hc & _) & _).
  assert (Hleaf : forall p1 extra,
             trace p1 = (trace p ++ d)%list -> constructions extra = 0 ->
             constructions (trace p1 ++ extra) = constructions (trace p)).
  { intros p1 extra H1 H2. rewrite H1, !constructions_app, Hc, H2. lia. }
  destruct (company_GET w cfg p) as [[body|e|n] p1]; cbn [snd] in Ht.
  - destruct (JSON_parse w body) as [e|res]; [now apply Hleaf|].
    destruct (get _ _) as [e|data]; [now apply Hleaf|].
    destruct (nullish data); cbn [snd with_trace trace].
    + rewrite <- app_assoc. now apply Hleaf.
    + now apply Hleaf.
  - now apply Hleaf.
  - cbn [snd]. rewrite Ht, constructions_app, Hc. lia.
Qed.

(** [establishWebSocketConnection], read off the state its refresh
    leaves and the answers of the Pusher library. *)
Lemma establishWebSocketConnection_run (w : World) (cfg : Config) (p : Process) :
  establishWebSocketConnection w cfg p =
  let p1 := snd (getWebsocketDetails w cfg p) in
  let d := websocketDetails p1 in
  let key := pusher_key d in
  let opts := pusher_options cfg d in
  let t2 := ((trace p1 ++ [PusherLogToConsole true]) ++ [NewPusher key opts])%list in
  match Pusher_new w key opts with
  | Some e => (Throws e, mkProcess d (clients p1) t2)
  | None =>
      match Pusher_subscribe w (channel_key d) with
      | Some e =>
          (Throws e,
           mkProcess d (mkPusher key opts [] :: clients p1)
                     (t2 ++ [Subscribe (channel_key d)]))
      | None =>
          (Returns JUndefined,
           mkProcess d
             (mkPusher key opts [mkChannel (channel_key d) [("update", OnUpdate)]]
              :: clients p1)
             ((t2 ++ [Subscribe (channel_key d)])
              ++ [Bind (channel_key d) "update" OnUpdate]))
      end
  end%list.
Proof.
  unfold establishWebSocketConnection, pusher_options, environmentURL.
  unfold bind at 1.
  pose proof (getWebsocketDetails_returns w cfg p) as Hr.
  destruct (getWebsocketDetails w cfg p) as [r p1]. cbn [fst snd] in *. subst r.
  unfold new_Pusher, pusher_subscribe, channel_bind. monadic. cbn [websocketDetails clients trace].
  destruct (Pusher_new w _ _); [reflexivity|].
  cbn [websocketDetails clients trace].
  destruct (Pusher_subscribe w _); [reflexivity|].
  cbn [websocketDetails clients trace on_newest add_channel add_binding subscriptions
       existsb app_key options map chan_name chan_bindings app].
  unfold add_binding.
  cbn [subscriptions app_key options map chan_name chan_bindings app].
  now rewrite String.eqb_refl.
Qed.

Lemma get_field (data : Value) (k : string) :
  nullish data = false -> get data k = inr (field data k).
Proof.
  unfold field. destruct data; simpl; intros H; try discriminate; reflexivity.
Qed.

Lemma delivered_inv (w : World) (cfg : Config) (p : Process) (data : Value) :
  delivered w cfg p = Some data ->
  nullish data = false
  /\ exists body p1 res,
       company_GET w cfg p = (Returns body, p1)
       /\ JSON_parse w body = inr res
       /\ get res "data" = inr data.
Proof.
  unfold delivered.
  destruct (company_GET w cfg p) as [[body|e|n] p1]; try discriminate.
  destruct (JSON_parse w body) as [e|res] eqn:Hp; try discriminate.
  destruct (get res "data") as [e|d] eqn:Hg; try discriminate.
  destruct (nullish d) eqn:Hn; try discriminate.
  intros H; inversion H; subst. split; [assumption|].
  exists body, p1, res. auto.
Qed.

(** *** The refresh: [getWebsocketDetails] *)

(** C10.  [getWebsocketDetails] never rejects: whatever the GET to
    /api/company does, the call resolves with undefined; when the GET
    throws (a rejected fetch, a response that is not ok, a body that
    cannot be read), the error is printed and nothing else changes, so
    the completion a caller awaits is the same as after a success. *)
Theorem C10_getWebsocketDetails_never_rejects :
  forall (w : World) (cfg : Config) (p : Process),
    fst (getWebsocketDetails w cfg p) = Returns JUndefined
    /\ (forall e p1,
          company_GET w cfg p = (Throws e, p1) ->
          getWebsocketDetails w cfg p =
            (Returns JUndefined,
             with_trace p1 (trace p1 ++ [fetch_error_line e])%list)
          /\ websocketDetails p1 = websocketDetails p
          /\ clients p1 = clients p).
Proof.
  intros w cfg p. split.
  - apply getWebsocketDetails_returns.
  - intros e p1 H. rewrite getWebsocketDetails_run, H. split; [reflexivity|].
    destruct (company_GET_frame w cfg p) as (Hd & Hc & _ & _).
    rewrite H in Hd, Hc. auto.
Qed.

Lemma C10_witness :
  company_GET Scenario.refused Scenario.cfg initial_process
    = (Throws (PlainError "Request failed: 401 Unauthorized"),
       snd (company_GET Scenario.refused Scenario.cfg initial_process))
  /\ fst (getWebsocketDetails Scenario.refused Scenario.cfg initial_process)
     = Returns JUndefined
  /\ websocketDetails (snd (company_GET Scenario.refused Scenario.cfg initial_process))
     = initial_details.
Proof.
  destruct (C10_getWebsocketDetails_never_rejects
              Scenario.refused Scenario.cfg initial_process) as [H1 H2].
  split; [reflexivity|]. split; [exact H1|].
  destruct (H2 (PlainError "Request failed: 401 Unauthorized")
               (snd (company_GET Scenario.refused Scenario.cfg initial_process))
               eq_refl) as (_ & H3 & _).
  exact H3.
Defined.



Lemma complete_payload_fields (data : Value) :
  complete_payload data = true ->
  nullish data = false /\ complete (copied data) = true.
Proof.
  unfold complete_payload, complete, copied, required_fields.
  cbn [forallb id name channel_key channel_key_expiry pusher_host pusher_key
       pusher_cluster].
  intros H. apply andb_prop in H. destruct H as [Hn H].
  split; [now apply negb_true_iff in Hn|].
  repeat (apply andb_prop in H; destruct H as [?H H]).
  repeat (apply andb_true_intro; split); assumption.
Qed.

(** C3.  When the GET returns a body that parses to a response whose
    [data] has all seven fields present and not empty, the refresh
    resolves without printing an error, and each field read from
    [websocketDetails] afterwards is the payload's field of that name. *)
Theorem C3_refresh_stores_the_payload :
  forall (w : World) (cfg : Config) (p : Process)
         (body : string) (p1 : Process) (res data : Value),
    company_GET w cfg p = (Returns body, p1) ->
    JSON_parse w body = inr res ->
    get res "data" = inr data ->
    complete_payload data = true ->
    let run := getWebsocketDetails w cfg p in
    let d := websocketDetails (snd run) in
    fst run = Returns JUndefined
    /\ trace (snd run) = (trace p1 ++ [details_line data])%list
    /\ fst (read_details (snd run)) = Returns d
    /\ get data "id" = inr (id d)
    /\ get data "name" = inr (name d)
    /\ get data "channel_key" = inr (channel_key d)
    /\ get data "channel_key_expiry" = inr (channel_key_expiry d)
    /\ get data "pusher_host" = inr (pusher_host d)
    /\ get data "pusher_key" = inr (pusher_key d)
    /\ get data "pusher_cluster" = inr (pusher_cluster d)
    /\ complete d = true.
Proof.
  intros w cfg p body p1 res data HG HP HD HC run d. subst d run.
  destruct (complete_payload_fields data HC) as [Hn Hc].
  rewrite getWebsocketDetails_run, HG, HP, HD, Hn. cbn [fst snd websocketDetails trace].
  split; [reflexivity|]. split; [reflexivity|]. split; [reflexivity|].
  unfold copied at 1 2 3 4 5 6 7.
  cbn [id name channel_key channel_key_expiry pusher_host pusher_key pusher_cluster].
  repeat (split; [now apply get_field|]).
  exact Hc.
Qed.

Lemma C3_witness :
  let run := getWebsocketDetails (Scenario.answers Scenario.credentials)
               Scenario.cfg initial_process in
  fst run = Returns JUndefined
  /\ get Scenario.credentials "pusher_key" = inr (pusher_key (websocketDetails (snd run)))
  /\ complete (websocketDetails (snd run)) = true.
Proof.
  pose proof (C3_refresh_stores_the_payload
                (Scenario.answers Scenario.credentials) Scenario.cfg initial_process
                (Scenario.body_of Scenario.credentials)
                (snd (company_GET (Scenario.answers Scenario.credentials)
                                  Scenario.cfg initial_process))
                (JObj [("data", Scenario.credentials)]) Scenario.credentials
                eq_refl eq_refl eq_refl eq_refl) as H.
  cbv zeta in H. cbv zeta.
  destruct H as (H1 & _ & _ & _ & _ & _ & _ & _ & H2 & _ & H3).
  split; [exact H1|]. split; [exact H2|exact H3].
Defined.

Lemma logged_values_app (t1 t2 : list Event) :
  logged_values (t1 ++ t2) = (logged_values t1 ++ logged_values t2)%list.
Proof.
  unfold logged_values. apply flat_map_app.
Qed.

(** C5 (as the code has it).  A refresh whose URL resolves prints the
    URL it fetches from; a refresh that gets hold of a payload prints
    the whole payload next to the label [Websocket Details:], so the
    value it stores as [pusher_key] is among the values it printed. *)
Theorem C5_refresh_prints_the_payload :
  forall (w : World) (cfg : Config) (p : Process),
    let p' := snd (getWebsocketDetails w cfg p) in
    (forall r,
        URL_new w "/api/company" (DOMAIN_URL cfg) = Some r ->
        In (ConsoleLog [LText ("Fetching: " ++ href (URL_of_record r))]) (trace p'))
    /\ (forall data,
          delivered w cfg p = Some data ->
          In (details_line data) (trace p')
          /\ In data (logged_values (trace p'))
          /\ pusher_key (websocketDetails p') = field data "pusher_key").
Proof.
  intros w cfg p p'. subst p'. split.
  - intros r Hr.
    assert (HG : In (ConsoleLog [LText ("Fetching: " ++ href (URL_of_record r))])
                    (trace (snd (company_GET w cfg p)))).
    { unfold company_GET, getTodMarketsEndpoint, get_issue, new_URL, settle.
      rewrite Hr. monadic. cbn [append_parameters truthy fst snd].
      cbn [websocketDetails clients trace].
      assert (Hin : forall rest : list Event,
                 In (ConsoleLog [LText ("Fetching: " ++ href (URL_of_record r))])
                    ((trace p
                      ++ [ConsoleLog [LText ("Fetching: " ++ href (URL_of_record r))]])
                     ++ rest)).
      { intros rest. apply in_or_app. left. apply in_or_app. right. now left. }
      destruct (fetch w _ _) as [e|resp]; cbn [snd trace].
      - rewrite <- (app_nil_r (_ ++ [Fetch _ _])). rewrite <- app_assoc. apply Hin.
      - destruct (negb (res_ok resp)); cbn [snd trace].
        + rewrite <- (app_nil_r (_ ++ [Fetch _ _])). rewrite <- app_assoc. apply Hin.
        + destruct (res_text resp); cbn [snd trace];
            rewrite <- (app_nil_r (_ ++ [Fetch _ _])); rewrite <- app_assoc; apply Hin. }
    rewrite getWebsocketDetails_run.
    destruct (company_GET w cfg p) as [[body|e|n] p1]; cbn [snd] in *.
    + destruct (JSON_parse w body) as [e|res]; [apply in_or_app; now left|].
      destruct (get res "data") as [e|data]; [apply in_or_app; now left|].
      destruct (nullish data); cbn [snd with_trace trace].
      * apply in_or_app; left. apply in_or_app; now left.
      * apply in_or_app; now left.
    + apply in_or_app; now left.
    + exact HG.
  - intros data Hd.
    pose proof (getWebsocketDetails_store w cfg p) as Hs. rewrite Hd in Hs.
    destruct (delivered_inv _ _ _ _ Hd) as (Hn & body & p1 & res & HG & HP & HD).
    rewrite Hs. rewrite getWebsocketDetails_run, HG, HP, HD, Hn.
    cbn [snd trace]. split; [|split; [|reflexivity]].
    + apply in_or_app. right. now left.
    + rewrite logged_values_app. apply in_or_app. right. now left.
Qed.

Lemma C5_witness :
  let p' := snd (getWebsocketDetails (Scenario.answers Scenario.credentials)
                   Scenario.cfg initial_process) in
  In (ConsoleLog [LText "Fetching: https://staging.todmarkets.com.au/api/company"])
     (trace p')
  /\ In Scenario.credentials (logged_values (trace p'))
  /\ pusher_key (websocketDetails p') = JStr "pk".
Proof.
  destruct (C5_refresh_prints_the_payload
              (Scenario.answers Scenario.credentials) Scenario.cfg initial_process)
    as [H1 H2].
  split.
  - exact (H1 (mkURLRecord Scenario.company_url None EmptyString) eq_refl).
  - destruct (H2 Scenario.credentials eq_refl) as (_ & H3 & H4).
    split; [exact H3|exact H4].
Defined.

(** C5, as stated, fails: in the specification's scenario the transport
    key ["pk"] is printed by the refresh that stores it. *)
Lemma C5_counterexample :
  let p' := snd (getWebsocketDetails (Scenario.answers Scenario.credentials)
                   Scenario.cfg initial_process) in
  pusher_key (websocketDetails p') = JStr "pk"
  /\ printed (JStr "pk") (trace p') = true.
Proof.
  vm_compute. split; reflexivity.
Qed.

(** *** The connection: [establishWebSocketConnection] *)

(** C1 (as the code has it).  [establishWebSocketConnection] calls the
    Pusher constructor exactly once in every run, right after its
    refresh has settled and whatever the refresh did: the key and the
    options are read from [websocketDetails] as the refresh left it,
    which is the payload's fields when the refresh got hold of a payload
    and the previous contents otherwise. *)
Theorem C1_constructs_after_every_refresh :
  forall (w : World) (cfg : Config) (p : Process),
    let p1 := snd (getWebsocketDetails w cfg p) in
    let d := websocketDetails p1 in
    let p' := snd (establishWebSocketConnection w cfg p) in
    (exists rest,
        trace p' = (trace p1 ++ PusherLogToConsole true
                             :: NewPusher (pusher_key d) (pusher_options cfg d)
                             :: rest)%list
        /\ constructions rest = 0)
    /\ constructions (trace p') = S (constructions (trace p))
    /\ d = match delivered w cfg p with
           | Some data => copied data
           | None => websocketDetails p
           end.
Proof.
  intros w cfg p p1 d p'.
  assert (Hrest : exists rest,
             trace p' = (trace p1 ++ PusherLogToConsole true
                                  :: NewPusher (pusher_key d) (pusher_options cfg d)
                                  :: rest)%list
             /\ constructions rest = 0).
  { subst p'. rewrite establishWebSocketConnection_run. fold p1. fold d. cbv zeta.
    destruct (Pusher_new w _ _); [|destruct (Pusher_subscribe w _)]; cbn [snd trace];
      rewrite <- ?app_assoc; eexists; (split; [reflexivity|reflexivity]). }
  split; [exact Hrest|]. split.
  - destruct Hrest as (rest & Ht & Hr). rewrite Ht.
    rewrite constructions_app.
    change (PusherLogToConsole true :: NewPusher (pusher_key d) (pusher_options cfg d) :: rest)
      with ([PusherLogToConsole true; NewPusher (pusher_key d) (pusher_options cfg d)]
            ++ rest)%list.
    rewrite constructions_app, Hr.
    subst p1. rewrite getWebsocketDetails_constructions. cbn. lia.
  - subst d p1. apply getWebsocketDetails_store.
Qed.

(** C1, as stated, fails.  A payload without its [channel_key_expiry] is
    an incomplete credential set, and the Pusher client is constructed
    from it and subscribed; with the endpoint unreachable the refresh
    fails and the constructor is still called, with the null key. *)
Lemma C1_counterexample :
  let partial := Scenario.without "channel_key_expiry" in
  let run := establishWebSocketConnection (Scenario.answers partial)
               Scenario.cfg initial_process in
  let run' := establishWebSocketConnection Scenario.unreachable
                Scenario.cfg initial_process in
  (complete_payload partial = false
   /\ complete (websocketDetails (snd run)) = false
   /\ fst run = Returns JUndefined
   /\ constructions (trace (snd run)) = 1
   /\ List.length (clients (snd run)) = 1)
  /\ (In (fetch_error_line (HostError "fetch failed")) (trace (snd run'))
      /\ In (NewPusher JNull (pusher_options Scenario.cfg initial_details))
            (trace (snd run'))).
Proof.
  vm_compute. repeat split; auto 10.
Qed.

(** The client a run of [establishWebSocketConnection] leaves when it
    resolves. *)
Lemma established_client (w : World) (cfg : Config) (p : Process) :
  fst (establishWebSocketConnection w cfg p) = Returns JUndefined ->
  let p' := snd (establishWebSocketConnection w cfg p) in
  let d := websocketDetails p' in
  clients p' =
    mkPusher (pusher_key d) (pusher_options cfg d)
             [mkChannel (channel_key d) [("update", OnUpdate)]]
    :: clients p.
Proof.
  rewrite establishWebSocketConnection_run. cbv zeta.
  destruct (Pusher_new w _ _); [discriminate|].
  destruct (Pusher_subscribe w _); [discriminate|].
  intros _. cbn [snd clients websocketDetails].
  now rewrite getWebsocketDetails_clients.
Qed.

(** *** The authorization endpoint *)

Lemma append_cons (c : ascii) (a b : string) : String c a ++ b = String c (a ++ b).
Proof. reflexivity. Qed.

Lemma append_empty (b : string) : EmptyString ++ b = b.
Proof. reflexivity. Qed.

Lemma length_append (a b : string) :
  String.length (a ++ b) = String.length a + String.length b.
Proof.
  induction a as [|c a IH]; rewrite ?append_cons, ?append_empty; cbn;
    [reflexivity|]. now rewrite IH.
Qed.

Lemma substring_all (s : string) : substring 0 (String.length s) s = s.
Proof.
  induction s as [|c s IH]; cbn; [reflexivity|]. now rewrite IH.
Qed.

Lemma substring_suffix (a b : string) :
  substring (String.length a) (String.length b) (a ++ b) = b.
Proof.
  induction a as [|c a IH]; rewrite ?append_cons, ?append_empty; cbn;
    [apply substring_all|exact IH].
Qed.

Lemma substring_prefix (a b : string) :
  substring 0 (String.length a) (a ++ b) = a.
Proof.
  induction a as [|c a IH]; rewrite ?append_cons, ?append_empty; cbn.
  - destruct b; reflexivity.
  - now rewrite IH.
Qed.

Lemma ends_with_append (a suffix : string) : ends_with suffix (a ++ suffix) = true.
Proof.
  unfold ends_with. rewrite length_append.
  replace (String.length a + String.length suffix - String.length suffix)
    with (String.length a) by lia.
  rewrite substring_suffix, String.eqb_refl.
  apply andb_true_intro. split; [apply Nat.leb_le; lia|reflexivity].
Qed.

Lemma drop_last_append (a suffix : string) :
  drop_last (String.length suffix) (a ++ suffix) = a.
Proof.
  unfold drop_last. rewrite length_append.
  replace (String.length a + String.length suffix - String.length suffix)
    with (String.length a) by lia.
  apply substring_prefix.
Qed.

(** A string that ends in [/api] does not end in [/api/]: its last
    character is an [i]. *)
Lemma api_is_not_api_slash (a : string) : ends_with "/api/" (a ++ "/api") = false.
Proof.
  unfold ends_with. rewrite length_append. cbn [String.length].
  destruct (5 <=? String.length a + 4)%nat eqn:Hle; [|reflexivity].
  apply Nat.leb_le in Hle. cbn [andb].
  apply String.eqb_neq. intros H.
  assert (Hg : String.get 4 (substring (String.length a + 4 - 5) 5 (a ++ "/api"))
               = String.get 4 "/api/") by now rewrite H.
  rewrite substring_correct1 in Hg by lia.
  replace (4 + (String.length a + 4 - 5)) with (3 + String.length a) in Hg by lia.
  rewrite <- append_correct2 in Hg. discriminate Hg.
Qed.

Lemma remove_trailing_api_segment (base : string) :
  remove_trailing_api (base ++ "/api") = base
  /\ remove_trailing_api (base ++ "/api/") = base.
Proof.
  unfold remove_trailing_api. split.
  - rewrite api_is_not_api_slash, ends_with_append.
    exact (drop_last_append base "/api").
  - rewrite ends_with_append. exact (drop_last_append base "/api/").
Qed.

Lemma cons_neq {A : Type} (x : A) (l : list A) : x :: l <> l.
Proof.
  intros H. apply (f_equal (@List.length A)) in H. cbn in H. lia.
Qed.

(** C8.  Whatever client [establishWebSocketConnection] constructs, its
    authorization call goes to the backend base URL without a trailing
    [/api] or [/api/], followed by [/broadcasting/auth]; it carries the
    API key as the bearer credential in the [Authorization] header, and
    the socket id the transport supplies next to the channel name. *)
Theorem C8_authorization_goes_to_broadcasting_auth :
  forall (w : World) (cfg : Config) (p : Process) (c : Pusher)
         (socket_id channel_name : string),
    clients (snd (establishWebSocketConnection w cfg p)) = c :: clients p ->
    let rq := Transport.authorization_request c socket_id channel_name in
    Transport.auth_url rq
      = remove_trailing_api (DOMAIN_URL cfg) ++ "/broadcasting/auth"
    /\ Transport.auth_headers rq = [("Authorization", "Bearer " ++ API_KEY cfg)]
    /\ Transport.auth_form rq
       = [("socket_id", socket_id); ("channel_name", channel_name)]
    /\ (forall base,
          DOMAIN_URL cfg = base ++ "/api" \/ DOMAIN_URL cfg = base ++ "/api/" ->
          Transport.auth_url rq = base ++ "/broadcasting/auth")
    /\ (ends_with "/api" (DOMAIN_URL cfg) = false ->
        ends_with "/api/" (DOMAIN_URL cfg) = false ->
        Transport.auth_url rq = DOMAIN_URL cfg ++ "/broadcasting/auth").
Proof.
  intros w cfg p c socket_id channel_name Hc rq.
  assert (Ho : options c
               = pusher_options cfg
                   (websocketDetails (snd (getWebsocketDetails w cfg p)))).
  { rewrite establishWebSocketConnection_run in Hc. cbv zeta in Hc.
    destruct (Pusher_new w _ _);
      [|destruct (Pusher_subscribe w _)];
      cbn [snd clients] in Hc; rewrite getWebsocketDetails_clients in Hc.
    - symmetry in Hc. now apply cons_neq in Hc.
    - inversion Hc. reflexivity.
    - inversion Hc. reflexivity. }
  subst rq. unfold Transport.authorization_request.
  cbn [Transport.auth_url Transport.auth_headers Transport.auth_form].
  rewrite Ho. cbn [pusher_options opt_authEndpoint opt_auth_headers].
  repeat split.
  - intros base [H|H]; rewrite H;
      destruct (remove_trailing_api_segment base) as [H1 H2]; now rewrite ?H1, ?H2.
  - intros H1 H2. unfold remove_trailing_api. now rewrite H1, H2.
Qed.

Lemma C8_witness :
  let c := mkPusher (JStr "pk") (pusher_options Scenario.cfg Scenario.stored)
             [mkChannel (JStr "k1") [("update", OnUpdate)]] in
  Transport.auth_url (Transport.authorization_request c "1234.5678" "private-k1")
    = "https://staging.todmarkets.com.au/broadcasting/auth"
  /\ Transport.auth_headers (Transport.authorization_request c "1234.5678" "private-k1")
     = [("Authorization", "Bearer secret-api-key")].
Proof.
  intros c.
  destruct (C8_authorization_goes_to_broadcasting_auth
              (Scenario.answers Scenario.credentials) Scenario.cfg initial_process
              c "1234.5678" "private-k1" eq_refl) as (_ & H2 & _ & H4 & _).
  split; [|exact H2].
  apply (H4 "https://staging.todmarkets.com.au"). right. reflexivity.
Defined.

(** *** Configuration *)

(** C7.  When the API key or the backend base URL is unset or empty, a
    run of either script prints the complaint and exits with status 1,
    and that is all it does: no request is sent and no Pusher client is
    constructed. *)
Theorem C7_missing_setting_exits_first :
  forall (w : World) (env : Env) (is_main get_settles_first : bool) (p : Process),
    missing (env_API_KEY env) = true \/ missing (env_DOMAIN_URL env) = true ->
    exists msg,
      API_js w env is_main get_settles_first p
        = (Exits 1, with_trace p (trace p ++ startup_failure msg)%list)
      /\ websocket_js w env p
         = (Exits 1, with_trace p (trace p ++ startup_failure msg)%list)
      /\ filter is_Fetch (startup_failure msg) = []
      /\ constructions (startup_failure msg) = 0.
Proof.
  intros w [k d] is_main sched p H. cbn [env_API_KEY env_DOMAIN_URL] in H.
  unfold websocket_js, API_js, load_config, require_setting.
  cbn [env_API_KEY env_DOMAIN_URL]. unfold with_trace, startup_failure.
  destruct k as [k|].
  - destruct (missing (Some k)) eqn:Hk.
    + eexists. monadic. cbn [websocketDetails clients trace].
      rewrite <- app_assoc. repeat split.
    + destruct H as [H|H]; [discriminate|].
      destruct d as [d|].
      * rewrite H. eexists. monadic. cbn [websocketDetails clients trace].
        rewrite <- app_assoc. repeat split.
      * eexists. monadic. cbn [websocketDetails clients trace].
        rewrite <- app_assoc. repeat split.
  - eexists. monadic. cbn [websocketDetails clients trace].
    rewrite <- app_assoc. repeat split.
Qed.

Lemma C7_witness :
  exists msg,
    websocket_js (Scenario.answers Scenario.credentials)
                 (mkEnv (Some "secret-api-key") None) initial_process
    = (Exits 1, with_trace initial_process (startup_failure msg)).
Proof.
  destruct (C7_missing_setting_exits_first
              (Scenario.answers Scenario.credentials)
              (mkEnv (Some "secret-api-key") None) false false initial_process
              (or_intror eq_refl)) as (msg & _ & H & _).
  exists msg. exact H.
Defined.

(** *** Query parameters *)

Lemma appended_appended (u : URL) (l1 l2 : list (string * string)) :
  appended (appended u l1) l2 = appended u (l1 ++ l2).
Proof.
  destruct l1 as [|x l1]; [reflexivity|].
  destruct l2 as [|y l2].
  - now rewrite app_nil_r.
  - cbn [appended app url_base url_fragment url_params].
    now rewrite <- !app_assoc.
Qed.

Lemma searchParams_append_appended (u : URL) (k v : string) :
  searchParams_append u k v = appended u [(k, v)].
Proof. reflexivity. Qed.

Lemma fold_append_pair (l : list (string * string)) (u : URL) :
  fold_left append_pair l u = appended u l.
Proof.
  revert u. induction l as [|[k v] l IH]; intros u; [reflexivity|].
  cbn [fold_left]. rewrite IH. unfold append_pair. cbn [fst snd].
  rewrite searchParams_append_appended. apply appended_appended.
Qed.

Lemma for_each_values (k : string) (vals : list Value) (u : URL) :
  for_each (append_converted k) vals u
  = if forallb convertible vals
    then inr (appended u (map (fun val => (k, to_string val)) vals))
    else inl unconvertible.
Proof.
  revert u. induction vals as [|val vals IH]; intros u; [reflexivity|].
  cbn [for_each forallb map]. unfold append_converted at 1, ToString.
  destruct (convertible val); cbn [andb]; [|reflexivity].
  rewrite IH. destruct (forallb convertible vals); [|reflexivity].
  now rewrite searchParams_append_appended, appended_appended.
Qed.

(** One entry of a parameters object: its pairs, or the TypeError of a
    value that has no text. *)
Lemma append_entry_run (u : URL) (kv : string * Value) :
  append_entry u kv
  = if convertible (snd kv) then inr (appended u (query_pairs kv))
    else inl unconvertible.
Proof.
  destruct kv as [k v]. unfold append_entry, query_pairs. cbn [snd].
  destruct v; cbn [nullish]; try reflexivity.
  - apply for_each_values.
  - unfold append_converted, ToString. destruct (convertible (JObj props)); reflexivity.
Qed.

Lemma for_each_entries (props : list (string * Value)) (u : URL) :
  for_each append_entry props u
  = if all_convertible props then inr (appended u (flat_map query_pairs props))
    else inl unconvertible.
Proof.
  unfold all_convertible.
  revert u. induction props as [|kv props IH]; intros u; [reflexivity|].
  cbn [for_each forallb flat_map]. rewrite append_entry_run.
  destruct (convertible (snd kv)); cbn [andb]; [|reflexivity].
  rewrite IH. destruct (forallb _ props); [|reflexivity].
  now rewrite appended_appended.
Qed.

Lemma starts_with_question (c : ascii) (t : string) :
  starts_with "?" (String c t) = Ascii.eqb c "?".
Proof.
  unfold starts_with. cbn [prefix].
  destruct (ascii_dec "?" c) as [H|H].
  - subst c. destruct t; reflexivity.
  - symmetry. apply Ascii.eqb_neq. congruence.
Qed.

Lemma starts_with_two_questions (t : string) :
  starts_with "??" (String "?" t) = starts_with "?" t.
Proof.
  unfold starts_with. cbn [prefix].
  destruct (ascii_dec "?" "?") as [_|H]; [reflexivity|congruence].
Qed.

(** The query parameters a string stands for do not change when a [?]
    is put in front of it, unless it already began with two. *)
Lemma append_parameters_leading_question (u : URL) (t : string) :
  starts_with "??" t = false ->
  append_parameters u (ParamValue (JStr (String "?" t)))
  = append_parameters u (ParamValue (JStr t)).
Proof.
  intros H. unfold append_parameters.
  cbn [truthy String.eqb negb]. rewrite starts_with_question.
  cbn [Ascii.eqb Bool.eqb slice1]. 
  destruct t as [|c t].
  - reflexivity.
  - cbn [truthy String.eqb negb]. rewrite starts_with_question.
    destruct (Ascii.eqb c "?") eqn:Hc.
    + apply Ascii.eqb_eq in Hc. subst c.
      rewrite starts_with_two_questions in H.
      cbn [slice1]. unfold URLSearchParams_of_string at 2.
      rewrite H. unfold URLSearchParams_of_string.
      rewrite starts_with_question. reflexivity.
    + reflexivity.
Qed.

(** C9 (as the code has it).  For a string of parameters that does not
    itself begin with two question marks, [getTodMarketsEndpoint] behaves
    the same with and without one [?] put in front of it, so it requests
    the same URL.  For an object of parameters whose values can all be
    turned into text, the URL receives, in the order of the entries, no
    pair for an entry whose value is undefined or null, the key once per
    element for an entry whose value is an array, and the key once for
    any other entry; the query string is the serialization of the pairs
    the URL had followed by these.  When a value cannot be turned into
    text, the call fails with the TypeError of the conversion and
    neither prints nor requests anything. *)
Theorem C9_query_parameters :
  forall (w : World) (cfg : Config) (endpoint : string) (p : Process),
    (forall t,
        starts_with "??" t = false ->
        getTodMarketsEndpoint w cfg endpoint (ParamValue (JStr ("?" ++ t))) p
        = getTodMarketsEndpoint w cfg endpoint (ParamValue (JStr t)) p)
    /\ (forall u props,
          all_convertible props = true ->
          append_parameters u (ParamValue (JObj props))
          = inr (appended u (flat_map query_pairs props)))
    /\ (forall props r,
          all_convertible props = false ->
          URL_new w endpoint (DOMAIN_URL cfg) = Some r ->
          append_parameters (URL_of_record r) (ParamValue (JObj props))
          = inl unconvertible
          /\ getTodMarketsEndpoint w cfg endpoint (ParamValue (JObj props)) p
             = (Throws unconvertible, p))
    /\ (forall k v, nullish v = true -> query_pairs (k, v) = [])
    /\ (forall k vals,
          query_pairs (k, JArr vals) = map (fun val => (k, to_string val)) vals)
    /\ (forall u k v rest,
          url_query (appended u ((k, v) :: rest))
          = Some (urlencoded_serialize (url_params u ++ (k, v) :: rest)%list)).
Proof.
  intros w cfg endpoint p. split; [|split; [|split; [|repeat split]]].
  - intros t H. unfold getTodMarketsEndpoint, get_issue.
    change ("?" ++ t) with (String "?" t).
    cbv beta delta [bind].
    destruct (new_URL w cfg endpoint p) as [[u|e|n] p1]; try reflexivity.
    now rewrite (append_parameters_leading_question u t H).
  - intros u props H. unfold append_parameters. cbn [truthy entries].
    now rewrite for_each_entries, H.
  - intros props r H Hr.
    assert (Ha : append_parameters (URL_of_record r) (ParamValue (JObj props))
                 = inl unconvertible).
    { unfold append_parameters. cbn [truthy entries].
      now rewrite for_each_entries, H. }
    split; [exact Ha|].
    unfold getTodMarketsEndpoint, get_issue, new_URL. rewrite Hr.
    monadic. now rewrite Ha.
  - intros k v H. destruct v; try discriminate; reflexivity.
Qed.

Lemma C9_witness :
  getTodMarketsEndpoint (Scenario.answers Scenario.credentials) Scenario.cfg
    "/company" (ParamValue (JStr "?limit=10&filter=active")) initial_process
  = getTodMarketsEndpoint (Scenario.answers Scenario.credentials) Scenario.cfg
      "/company" (ParamValue (JStr "limit=10&filter=active")) initial_process
  /\ option_map href
       (match append_parameters
                (URL_of_record (mkURLRecord "https://h/company" None EmptyString))
                (ParamValue (JObj [("limit", JNum "10"); ("skip", JNull);
                                   ("tag", JArr [JStr "a"; JStr "b"])])) with
        | inr u => Some u
        | inl _ => None
        end)
     = Some "https://h/company?limit=10&tag=a&tag=b"
  /\ getTodMarketsEndpoint (Scenario.answers Scenario.credentials) Scenario.cfg
       "/company" (ParamValue (JObj [("a", JObj [("toString", JNum "1")])]))
       initial_process
     = (Throws unconvertible, initial_process)
  /\ query_pairs ("skip", JNull) = [].
Proof.
  destruct (C9_query_parameters (Scenario.answers Scenario.credentials) Scenario.cfg
              "/company" initial_process) as (H1 & H2 & H3 & H4 & _).
  split; [|split; [|split]].
  - exact (H1 "limit=10&filter=active" eq_refl).
  - rewrite (H2 (URL_of_record (mkURLRecord "https://h/company" None EmptyString))
               [("limit", JNum "10"); ("skip", JNull);
                ("tag", JArr [JStr "a"; JStr "b"])] eq_refl).
    reflexivity.
  - exact (proj2 (H3 [("a", JObj [("toString", JNum "1")])]
                     (mkURLRecord "https://staging.todmarkets.com.au/company"
                                  None EmptyString) eq_refl eq_refl)).
  - exact (H4 "skip" JNull eq_refl).
Defined.

(** C9, as stated, fails: put in front of a string that begins with two
    question marks, one more [?] changes the URL that is requested. *)
Lemma C9_counterexample :
  let w := Scenario.answers Scenario.credentials in
  let url_of (s : string) :=
    match get_issue w Scenario.cfg "/company" (ParamValue (JStr s)) initial_process with
    | (Returns rq, _) => Some (fst rq)
    | _ => None
    end in
  url_of ("?" ++ "??a=1") = Some "https://staging.todmarkets.com.au/company?%3Fa=1"
  /\ url_of "??a=1" = Some "https://staging.todmarkets.com.au/company?a=1"
  /\ url_of ("?" ++ "??a=1") <> url_of "??a=1".
Proof.
  vm_compute. repeat split. discriminate.
Qed.

(** *** Expiry *)



(* ================================================================== *)
(** ** Further properties of the scripts *)
(* ================================================================== *)

(** *** API.js, lines 3-14: the guards *)

(** X1.  The guards let a run through exactly when both settings are
    there and not empty; the configuration is then the two settings as
    they are and nothing is printed.  The API key is checked first: when
    it is missing the run complains about it alone, whatever the base
    URL is. *)
Theorem load_config_decides :
  forall (env : Env) (p : Process),
    (forall k d,
        env_API_KEY env = Some k -> env_DOMAIN_URL env = Some d ->
        k <> EmptyString -> d <> EmptyString ->
        load_config env p = (Returns (mkConfig k d), p))
    /\ (missing (env_API_KEY env) = true ->
        load_config env p
        = (Exits 1,
           with_trace p
             (trace p ++ startup_failure
                "Missing API_KEY in environment. Please set API_KEY in your .env file.")%list))
    /\ (missing (env_API_KEY env) = false ->
        missing (env_DOMAIN_URL env) = true ->
        load_config env p
        = (Exits 1,
           with_trace p
             (trace p ++ startup_failure
                "Missing DOMAIN_URL in environment. Please set DOMAIN_URL in your .env file.")%list))
    /\ (forall cfg p', load_config env p = (Returns cfg, p') ->
        p' = p
        /\ env_API_KEY env = Some (API_KEY cfg)
        /\ env_DOMAIN_URL env = Some (DOMAIN_URL cfg)
        /\ API_KEY cfg <> EmptyString /\ DOMAIN_URL cfg <> EmptyString).
Proof.
  intros [k d] p. cbn [env_API_KEY env_DOMAIN_URL].
  unfold load_config, require_setting, with_trace, startup_failure.
  cbn [env_API_KEY env_DOMAIN_URL].
  split; [|split; [|split]].
  - intros k0 d0 Hk Hd Hk0 Hd0. subst k d. cbn [missing].
    apply String.eqb_neq in Hk0, Hd0. rewrite Hk0, Hd0. reflexivity.
  - intros Hk. destruct k as [k|]; [rewrite Hk|]; monadic;
      cbn [websocketDetails clients trace]; now rewrite <- app_assoc.
  - intros Hk Hd. destruct k as [k|]; [|discriminate]. rewrite Hk.
    destruct d as [d|]; [rewrite Hd|]; monadic;
      cbn [websocketDetails clients trace]; now rewrite <- app_assoc.
  - intros cfg p' H.
    destruct k as [k|]; [|monadic; discriminate].
    destruct (missing (Some k)) eqn:Hk; [monadic; discriminate|].
    destruct d as [d|]; [|monadic; discriminate].
    destruct (missing (Some d)) eqn:Hd; [monadic; discriminate|].
    revert H. monadic. intros H. inversion H; subst.
    cbn [API_KEY DOMAIN_URL]. cbn [missing] in Hk, Hd.
    apply String.eqb_neq in Hk, Hd. auto.
Qed.

Lemma load_config_decides_witness :
  load_config Scenario.env initial_process = (Returns Scenario.cfg, initial_process)
  /\ fst (load_config (mkEnv None None) initial_process) = Exits 1
  /\ fst (load_config (mkEnv (Some "k") (Some EmptyString)) initial_process) = Exits 1
  /\ API_KEY Scenario.cfg <> EmptyString.
Proof.
  split; [|split; [|split]].
  - destruct (load_config_decides Scenario.env initial_process) as (H & _).
    apply H; [reflexivity|reflexivity|discriminate|discriminate].
  - destruct (load_config_decides (mkEnv None None) initial_process) as (_ & H & _).
    now rewrite (H eq_refl).
  - destruct (load_config_decides (mkEnv (Some "k") (Some EmptyString)) initial_process)
      as (_ & _ & H & _).
    now rewrite (H eq_refl eq_refl).
  - destruct (load_config_decides Scenario.env initial_process) as (_ & _ & _ & H).
    destruct (H Scenario.cfg initial_process eq_refl) as (_ & _ & _ & H1 & _).
    exact H1.
Defined.

(** *** API.js, lines 48-69: the query parameters *)

(** Whatever the parameters are, appending them comes down to appending
    one list of pairs. *)
Lemma append_parameters_appended (u : URL) (parameters : Parameters) (u' : URL) :
  append_parameters u parameters = inr u' ->
  exists l, u' = appended u l.
Proof.
  destruct parameters as [v|l]; cbn [append_parameters].
  - destruct (truthy v) eqn:Ht.
    + destruct v; try discriminate.
      * intros H; inversion H; subst. eexists. apply fold_append_pair.
      * cbn [entries]. rewrite for_each_entries.
        destruct (all_convertible _); [|discriminate].
        intros H; inversion H; subst. now eexists.
      * cbn [entries]. rewrite for_each_entries.
        destruct (all_convertible _); [|discriminate].
        intros H; inversion H; subst. now eexists.
    + intros H; inversion H; subst. now exists [].
  - intros H; inversion H; subst. eexists. apply fold_append_pair.
Qed.

(** X2.  Query parameters never touch the rest of the URL: the part up
    to the path and the fragment stay, the pairs the endpoint already
    had stay in front, in order, and the query string is rewritten only
    when at least one pair is added.  The pairs of a [URLSearchParams]
    instance are added as they are, duplicates included. *)
Theorem append_parameters_only_extends_the_query :
  forall (u u' : URL) (parameters : Parameters),
    append_parameters u parameters = inr u' ->
    url_base u' = url_base u
    /\ url_fragment u' = url_fragment u
    /\ exists l,
         url_params u' = (url_params u ++ l)%list
         /\ (l = [] -> u' = u)
         /\ (l <> [] -> url_query u' = Some (urlencoded_serialize (url_params u')))
         /\ (forall pairs, parameters = ParamSearchParams pairs -> l = pairs).
Proof.
  intros u u' parameters H.
  assert (Hl : exists l, u' = appended u l
                         /\ (forall pairs, parameters = ParamSearchParams pairs ->
                                           l = pairs)).
  { destruct parameters as [v|pairs].
    - destruct (append_parameters_appended _ _ _ H) as [l Hl].
      exists l. split; [exact Hl|]. intros pairs Hp. discriminate Hp.
    - cbn [append_parameters] in H. inversion H; subst.
      exists pairs. split; [apply fold_append_pair|].
      intros pairs' Hp. now inversion Hp. }
  destruct Hl as (l & Hu & Hp). subst u'.
  destruct l as [|x l]; cbn [appended url_base url_fragment url_params url_query].
  - repeat split. exists []. rewrite app_nil_r. repeat split; auto. congruence.
  - repeat split. exists (x :: l). repeat split; auto. discriminate.
Qed.

Lemma append_parameters_only_extends_the_query_witness :
  let u := URL_of_record (mkURLRecord "https://h/company" (Some "page=2") "#top") in
  exists u',
    append_parameters u (ParamSearchParams [("tag", "a"); ("tag", "a")]) = inr u'
    /\ url_params u' = [("page", "2"); ("tag", "a"); ("tag", "a")]
    /\ href u' = "https://h/company?page=2&tag=a&tag=a#top".
Proof.
  intros u. eexists. split; [reflexivity|].
  destruct (append_parameters_only_extends_the_query u _
              (ParamSearchParams [("tag", "a"); ("tag", "a")]) eq_refl)
    as (_ & _ & l & H1 & _ & _ & H4).
  rewrite (H4 _ eq_refl) in H1. split; [exact H1|reflexivity].
Defined.

(** X3.  Parameters that are falsy are ignored, not refused: undefined,
    null, the empty string, 0, NaN and false request the bare endpoint,
    exactly as a call without parameters does; so do an empty
    [URLSearchParams] and an object whose values are all undefined or
    null. *)
Theorem falsy_parameters_are_ignored :
  forall (w : World) (cfg : Config) (endpoint : string) (p : Process),
    let bare := getTodMarketsEndpoint w cfg endpoint (ParamValue JUndefined) p in
    (forall v, truthy v = false ->
               getTodMarketsEndpoint w cfg endpoint (ParamValue v) p = bare)
    /\ getTodMarketsEndpoint w cfg endpoint (ParamSearchParams []) p = bare
    /\ (forall props,
          forallb (fun kv => nullish (snd kv)) props = true ->
          getTodMarketsEndpoint w cfg endpoint (ParamValue (JObj props)) p = bare).
Proof.
  intros w cfg endpoint p bare. subst bare.
  assert (Hsame : forall parameters,
             (forall u, append_parameters u parameters = inr u) ->
             getTodMarketsEndpoint w cfg endpoint parameters p
             = getTodMarketsEndpoint w cfg endpoint (ParamValue JUndefined) p).
  { intros parameters H. unfold getTodMarketsEndpoint, get_issue.
    cbv beta delta [bind].
    destruct (new_URL w cfg endpoint p) as [[u|e|n] p1]; try reflexivity.
    now rewrite H. }
  split; [|split].
  - intros v Hv. apply Hsame. intros u. cbn [append_parameters]. now rewrite Hv.
  - apply Hsame. reflexivity.
  - intros props Hp. apply Hsame. intros u. cbn [append_parameters truthy entries].
    rewrite for_each_entries.
    assert (H : all_convertible props = true /\ flat_map query_pairs props = []).
    { unfold all_convertible.
      induction props as [|[k v] props IH]; [split; reflexivity|].
      cbn [forallb snd] in Hp. apply andb_prop in Hp. destruct Hp as [Hv Hp].
      destruct (IH Hp) as [IH1 IH2].
      cbn [forallb flat_map snd]. rewrite IH1, IH2.
      destruct v; try discriminate; split; reflexivity. }
    destruct H as [H1 H2]. now rewrite H1, H2.
Qed.

Lemma falsy_parameters_are_ignored_witness :
  let w := Scenario.answers Scenario.credentials in
  getTodMarketsEndpoint w Scenario.cfg "/company" (ParamValue (JNum "0")) initial_process
  = getTodMarketsEndpoint w Scenario.cfg "/company" (ParamValue JUndefined) initial_process
  /\ getTodMarketsEndpoint w Scenario.cfg "/company"
       (ParamValue (JObj [("a", JNull); ("b", JUndefined)])) initial_process
     = getTodMarketsEndpoint w Scenario.cfg "/company" (ParamValue JUndefined)
         initial_process.
Proof.
  intros w.
  destruct (falsy_parameters_are_ignored w Scenario.cfg "/company" initial_process)
    as (H1 & _ & H3).
  split; [exact (H1 (JNum "0") eq_refl)|].
  exact (H3 [("a", JNull); ("b", JUndefined)] eq_refl).
Defined.

(** X4.  Parameters that are truthy but neither an object, a string nor
    a [URLSearchParams] (true, a number other than 0 and NaN) make the
    call fail with its TypeError before anything is printed or sent. *)
Theorem other_parameters_are_refused :
  forall (w : World) (cfg : Config) (endpoint : string) (p : Process)
         (v : Value) (r : URLRecord),
    URL_new w endpoint (DOMAIN_URL cfg) = Some r ->
    truthy v = true ->
    (exists b, v = JBool b) \/ (exists n, v = JNum n) ->
    getTodMarketsEndpoint w cfg endpoint (ParamValue v) p
    = (Throws (TypeError "parameters must be an object, string, or URLSearchParams"), p).
Proof.
  intros w cfg endpoint p v r Hr Ht Hv.
  unfold getTodMarketsEndpoint, get_issue, new_URL. rewrite Hr.
  monadic. cbn [append_parameters]. rewrite Ht.
  destruct Hv as [[b Hv]|[n Hv]]; subst v; reflexivity.
Qed.

Lemma other_parameters_are_refused_witness :
  getTodMarketsEndpoint (Scenario.answers Scenario.credentials) Scenario.cfg
    "/company" (ParamValue (JNum "10")) initial_process
  = (Throws (TypeError "parameters must be an object, string, or URLSearchParams"),
     initial_process).
Proof.
  apply (other_parameters_are_refused _ _ _ _ _
           (mkURLRecord "https://staging.todmarkets.com.au/company" None EmptyString)).
  - reflexivity.
  - reflexivity.
  - right. now exists "10".
Defined.

Lemma index_from_keys (l : list Value) (i : nat) :
  map fst (index_from i l) = map nat_to_string (seq i (List.length l))
  /\ map snd (index_from i l) = l.
Proof.
  revert i. induction l as [|x l IH]; intros i; [split; reflexivity|].
  cbn [index_from map fst snd List.length seq].
  destruct (IH (S i)) as [H1 H2]. now rewrite H1, H2.
Qed.

Lemma all_convertible_indexed (l : list Value) (i : nat) :
  all_convertible (index_from i l) = forallb convertible l.
Proof.
  unfold all_convertible. revert i.
  induction l as [|x l IH]; intros i; [reflexivity|].
  cbn [index_from forallb snd]. now rewrite IH.
Qed.

(** X5.  An array passed as parameters is taken as an object.  When its
    elements can all be turned into text, each is sent under its index,
    in order, an element that is undefined or null is left out, and an
    element that is itself an array repeats its index.  When one cannot,
    appending fails with the TypeError of the conversion. *)
Theorem array_parameters_are_keyed_by_index :
  forall (u : URL) (l : list Value),
    (forallb convertible l = true ->
     append_parameters u (ParamValue (JArr l))
     = inr (appended u (flat_map query_pairs (index_from 0 l))))
    /\ (forallb convertible l = false ->
        append_parameters u (ParamValue (JArr l)) = inl unconvertible)
    /\ map fst (index_from 0 l) = map nat_to_string (seq 0 (List.length l))
    /\ map snd (index_from 0 l) = l.
Proof.
  intros u l.
  assert (H : append_parameters u (ParamValue (JArr l))
              = if forallb convertible l
                then inr (appended u (flat_map query_pairs (index_from 0 l)))
                else inl unconvertible).
  { cbn [append_parameters truthy entries].
    now rewrite for_each_entries, all_convertible_indexed. }
  split; [|split].
  - intros Hc. now rewrite H, Hc.
  - intros Hc. now rewrite H, Hc.
  - apply index_from_keys.
Qed.

Lemma array_parameters_are_keyed_by_index_witness :
  let u := URL_of_record (mkURLRecord "https://h/company" None EmptyString) in
  option_map href
    (match append_parameters u (ParamValue (JArr [JStr "a"; JNull; JNum "7"])) with
     | inr u' => Some u'
     | inl _ => None
     end)
  = Some "https://h/company?0=a&2=7"
  /\ append_parameters u
       (ParamValue (JArr [JStr "a"; JObj [("toString", JNum "1")]]))
     = inl unconvertible.
Proof.
  intros u. split.
  - destruct (array_parameters_are_keyed_by_index u [JStr "a"; JNull; JNum "7"])
      as (H & _).
    rewrite (H eq_refl). reflexivity.
  - destruct (array_parameters_are_keyed_by_index u
                [JStr "a"; JObj [("toString", JNum "1")]]) as (_ & H & _).
    exact (H eq_refl).
Defined.

(** *** The query string read back *)

Lemma percent_decode_plain (c : ascii) (s : string) :
  Ascii.eqb c "%" = false ->
  percent_decode (String c s) = String c (percent_decode s).
Proof.
  intros H. destruct s as [|h [|l s]]; cbn [percent_decode]; rewrite ?H; reflexivity.
Qed.

Lemma serialize_cons (c : ascii) (s : string) :
  urlencoded_byte_serialize (String c s)
  = urlencoded_byte_serialize (String c EmptyString) ++ urlencoded_byte_serialize s.
Proof.
  cbn [urlencoded_byte_serialize].
  destruct (Ascii.eqb c " "); [reflexivity|].
  destruct (urlencoded_safe c); reflexivity.
Qed.

(** One byte, serialized and decoded, is that byte. *)
Lemma decode_serialized_byte (c : ascii) (rest : string) :
  percent_decode (plus_to_space (urlencoded_byte_serialize (String c EmptyString) ++ rest))
  = String c (percent_decode (plus_to_space rest)).
Proof.
  destruct c as [[] [] [] [] [] [] [] []];
    first [ reflexivity
          | apply (percent_decode_plain _ (plus_to_space rest)); reflexivity ].
Qed.

Lemma decode_serialized (s : string) :
  decode_component (urlencoded_byte_serialize s) = s.
Proof.
  unfold decode_component. induction s as [|c s IH]; [reflexivity|].
  rewrite serialize_cons, decode_serialized_byte. now rewrite IH.
Qed.

Lemma contains_append (c : ascii) (a b : string) :
  contains c (a ++ b) = contains c a || contains c b.
Proof.
  induction a as [|x a IH]; rewrite ?append_cons, ?append_empty; [reflexivity|].
  cbn [contains]. now rewrite IH, orb_assoc.
Qed.

(** Serialized text has no separator of its own. *)
Lemma serialized_has_no_separator (s : string) :
  contains "&" (urlencoded_byte_serialize s) = false
  /\ contains "=" (urlencoded_byte_serialize s) = false.
Proof.
  induction s as [|c s [IH1 IH2]]; [split; reflexivity|].
  rewrite serialize_cons, !contains_append, IH1, IH2, !orb_false_r.
  destruct c as [[] [] [] [] [] [] [] []]; split; reflexivity.
Qed.

Lemma split_on_not_nil (sep : ascii) (s : string) : split_on sep s <> [].
Proof.
  destruct s as [|c s]; cbn [split_on]; [discriminate|].
  destruct (Ascii.eqb c sep); [discriminate|].
  destruct (split_on sep s); discriminate.
Qed.

Lemma split_on_free (sep : ascii) (s : string) :
  contains sep s = false -> split_on sep s = [s].
Proof.
  induction s as [|c s IH]; [reflexivity|].
  cbn [contains split_on]. intros H. apply orb_false_elim in H. destruct H as [Hc Hs].
  rewrite Hc, (IH Hs). reflexivity.
Qed.

Lemma split_on_first (sep : ascii) (a b : string) :
  contains sep a = false ->
  split_on sep (a ++ String sep b) = a :: split_on sep b.
Proof.
  induction a as [|c a IH]; rewrite ?append_cons, ?append_empty.
  - intros _. cbn [split_on]. now rewrite Ascii.eqb_refl.
  - cbn [contains split_on]. intros H. apply orb_false_elim in H.
    destruct H as [Hc Ha]. rewrite Hc, (IH Ha). reflexivity.
Qed.

Lemma cut_at_first_equals (a b : string) :
  contains "=" a = false ->
  cut_at_equals (a ++ String "=" b) = (a, b).
Proof.
  induction a as [|c a IH]; rewrite ?append_cons, ?append_empty.
  - reflexivity.
  - cbn [contains cut_at_equals]. intros H. apply orb_false_elim in H.
    destruct H as [Hc Ha]. rewrite Hc, (IH Ha). reflexivity.
Qed.

Lemma serialize_pair_shape (kv : string * string) :
  contains "&" (serialize_pair kv) = false
  /\ String.eqb (serialize_pair kv) EmptyString = false
  /\ cut_at_equals (serialize_pair kv)
     = (urlencoded_byte_serialize (fst kv), urlencoded_byte_serialize (snd kv)).
Proof.
  unfold serialize_pair.
  destruct (serialized_has_no_separator (fst kv)) as [Ha He].
  destruct (serialized_has_no_separator (snd kv)) as [Hb _].
  change ("=" ++ urlencoded_byte_serialize (snd kv))
    with (String "=" (urlencoded_byte_serialize (snd kv))).
  split; [|split].
  - rewrite contains_append. cbn [contains]. now rewrite Ha, Hb.
  - destruct (urlencoded_byte_serialize (fst kv)); reflexivity.
  - now apply cut_at_first_equals.
Qed.

Lemma split_serialized (x : string * string) (l : list (string * string)) :
  split_on "&" (join "&" (map serialize_pair (x :: l))) = map serialize_pair (x :: l).
Proof.
  revert x. induction l as [|y l IH]; intros x.
  - cbn [map join String.concat]. apply split_on_free. apply serialize_pair_shape.
  - change (join "&" (map serialize_pair (x :: y :: l)))
      with (serialize_pair x ++ String "&" (join "&" (map serialize_pair (y :: l)))).
    rewrite split_on_first by apply serialize_pair_shape.
    now rewrite IH.
Qed.

(** Parsing a serialized list of pairs gives the list back. *)
Lemma parse_serialized (l : list (string * string)) :
  urlencoded_parse (urlencoded_serialize l) = l.
Proof.
  destruct l as [|x l]; [reflexivity|].
  unfold urlencoded_parse, urlencoded_serialize. rewrite split_serialized.
  generalize (x :: l). clear x l. intros l.
  induction l as [|[k v] l IH]; [reflexivity|].
  cbn [map filter].
  destruct (serialize_pair_shape (k, v)) as (_ & Hne & Hcut).
  rewrite Hne. cbn [negb map]. rewrite Hcut. cbn [fst snd].
  rewrite !decode_serialized. now rewrite IH.
Qed.

(** X6.  The query string that is requested reads back as the pairs that
    were put in: whatever the keys and values of an object of parameters
    contain (spaces, [&], [=], [?], [%], [+]), parsing the query of the
    URL gives the pairs the endpoint already had followed by those of
    the object, in order; nothing is merged, split or lost. *)
Theorem object_parameters_read_back :
  forall (u u' : URL) (props : list (string * Value)),
    append_parameters u (ParamValue (JObj props)) = inr u' ->
    flat_map query_pairs props <> [] ->
    exists q,
      url_query u' = Some q
      /\ urlencoded_parse q = (url_params u ++ flat_map query_pairs props)%list
      /\ href u' = url_base u ++ "?" ++ q ++ url_fragment u.
Proof.
  intros u u' props H Hne.
  cbn [append_parameters truthy entries] in H. rewrite for_each_entries in H.
  destruct (all_convertible props); [|discriminate].
  inversion H; subst. clear H.
  destruct (flat_map query_pairs props) as [|x l]; [congruence|].
  cbn [appended url_query]. eexists. split; [reflexivity|].
  split; [apply parse_serialized|reflexivity].
Qed.

Lemma object_parameters_read_back_witness :
  let u := URL_of_record (mkURLRecord "https://h/company" None EmptyString) in
  let props := [("q", JStr "a&b=c"); ("n", JArr [JNum "1"; JStr "x y"])] in
  exists u' q,
    append_parameters u (ParamValue (JObj props)) = inr u'
    /\ url_query u' = Some q
    /\ urlencoded_parse q = [("q", "a&b=c"); ("n", "1"); ("n", "x y")].
Proof.
  intros u props.
  destruct (object_parameters_read_back u _ props eq_refl) as (q & H1 & H2 & _).
  - discriminate.
  - eexists. exists q. split; [reflexivity|]. split; [exact H1|exact H2].
Defined.

(** *** API.js, lines 48-107: one request, one answer *)

Lemma get_issue_run (w : World) (cfg : Config) (endpoint : string)
      (parameters : Parameters) (p : Process) :
  get_issue w cfg endpoint parameters p =
  match URL_new w endpoint (DOMAIN_URL cfg) with
  | None => (Throws (TypeError "Invalid URL"), p)
  | Some r =>
      match append_parameters (URL_of_record r) parameters with
      | inl e => (Throws e, p)
      | inr u =>
          (Returns (href u, requestOptions cfg),
           with_trace p ((trace p ++ [ConsoleLog [LText ("Fetching: " ++ href u)]])
                         ++ [Fetch (href u) (requestOptions cfg)])%list)
      end
  end.
Proof.
  unfold get_issue, new_URL.
  destruct (URL_new w endpoint (DOMAIN_URL cfg)) as [r|]; [|reflexivity].
  monadic. destruct (append_parameters (URL_of_record r) parameters); reflexivity.
Qed.

Lemma post_issue_run (w : World) (cfg : Config) (endpoint : string)
      (payload : Value) (p : Process) :
  post_issue w cfg endpoint payload p =
  match URL_new w endpoint (DOMAIN_URL cfg) with
  | None => (Throws (TypeError "Invalid URL"), p)
  | Some r =>
      let opts :=
        mkRequestInit "POST" "follow" (req_headers (requestOptions cfg))
          (JSON_stringify (match payload with JUndefined => JObj [] | _ => payload end)) in
      (Returns (href (URL_of_record r), opts),
       with_trace p (trace p ++ [Fetch (href (URL_of_record r)) opts])%list)
  end.
Proof.
  unfold post_issue, new_URL.
  destruct (URL_new w endpoint (DOMAIN_URL cfg)) as [r|]; reflexivity.
Qed.

Lemma settle_frame (w : World) (rq : Pending) (p : Process) :
  snd (settle w rq p) = p /\ forall n, fst (settle w rq p) <> Exits n.
Proof.
  unfold settle. destruct (fetch w _ _) as [e|res]; [split; [reflexivity|discriminate]|].
  destruct (negb (res_ok res)); [split; [reflexivity|discriminate]|].
  destruct (res_text res); split; try reflexivity; discriminate.
Qed.

Lemma append_parameters_error (u : URL) (parameters : Parameters) (e : Error) :
  append_parameters u parameters = inl e ->
  exists msg, e = TypeError msg.
Proof.
  destruct parameters as [v|l]; cbn [append_parameters]; [|discriminate].
  destruct (truthy v); [|discriminate].
  destruct v; try discriminate; cbn [entries]; rewrite ?for_each_entries;
    try destruct (all_convertible _); try discriminate;
    intros H; inversion H; eexists; reflexivity.
Qed.

(** X7.  A call of [getTodMarketsEndpoint] sends at most one request and
    never leaves the process or touches [websocketDetails] or the Pusher
    clients.  Either it fails with a TypeError (the URL does not
    resolve, the parameters are refused) and has then printed and sent
    nothing, or it has printed [Fetching:] with a URL and then sent one
    GET to that very URL with the module's request options, and did
    nothing else, whatever the answer was. *)
Theorem getTodMarketsEndpoint_sends_one_request :
  forall (w : World) (cfg : Config) (endpoint : string)
         (parameters : Parameters) (p : Process),
    let run := getTodMarketsEndpoint w cfg endpoint parameters p in
    (forall n, fst run <> Exits n)
    /\ websocketDetails (snd run) = websocketDetails p
    /\ clients (snd run) = clients p
    /\ ((snd run = p /\ exists msg, fst run = Throws (TypeError msg))
        \/ (exists url,
              trace (snd run)
              = (trace p ++ [ConsoleLog [LText ("Fetching: " ++ url)];
                             Fetch url (requestOptions cfg)])%list
              /\ req_method (requestOptions cfg) = "GET"
              /\ req_body (requestOptions cfg) = None)).
Proof.
  intros w cfg endpoint parameters p run. subst run.
  unfold getTodMarketsEndpoint. unfold bind. rewrite get_issue_run.
  destruct (URL_new w endpoint (DOMAIN_URL cfg)) as [r|].
  - destruct (append_parameters (URL_of_record r) parameters) as [e|u] eqn:Ha.
    + apply append_parameters_error in Ha. destruct Ha as [msg Ha]. subst e.
      cbn [fst snd].
      repeat split; try discriminate. left. split; [reflexivity|]. eexists; reflexivity.
    + match goal with |- context [settle w ?rq ?p1] =>
        destruct (settle_frame w rq p1) as [Hs Hn];
        destruct (settle w rq p1) as [c p2] end.
      cbn [fst snd] in *. subst p2.
      split; [destruct c; [discriminate|discriminate|exact Hn]|].
      destruct c; cbn [snd with_trace websocketDetails clients trace];
        (repeat split; right; exists (href u); rewrite <- app_assoc; repeat split).
  - cbn [fst snd]. repeat split; try discriminate.
    left. split; [reflexivity|]. eexists; reflexivity.
Qed.

(** The answer to a request that was issued. *)
Lemma settle_returns (w : World) (rq : Pending) (p : Process) (body : string)
      (p' : Process) :
  settle w rq p = (Returns body, p') ->
  p' = p
  /\ exists res,
       fetch w (fst rq) (snd rq) = FetchResolves res
       /\ res_ok res = true
       /\ res_text res = inr body.
Proof.
  unfold settle. destruct (fetch w _ _) as [e|res]; [discriminate|].
  destruct (res_ok res) eqn:Hok; cbn [negb]; [|discriminate].
  destruct (res_text res) as [e|t] eqn:Ht; cbn [lift]; [discriminate|].
  intros H. inversion H; subst. split; [reflexivity|]. now exists res.
Qed.

Lemma settle_refused (w : World) (rq : Pending) (p : Process) (res : Response) :
  fetch w (fst rq) (snd rq) = FetchResolves res ->
  res_ok res = false ->
  settle w rq p
  = (Throws (PlainError ("Request failed: " ++ Z_to_string (res_status res)
                         ++ " " ++ res_statusText res)), p).
Proof.
  intros Hf Hok. unfold settle. now rewrite Hf, Hok.
Qed.

(** X8.  Both REST helpers return a body only when the request they sent
    was answered by a response that is ok, and the body is that
    response's text.  A response that is not ok makes the call fail with
    [Request failed:] followed by the status and the status text, and
    its body is not looked at; a rejected fetch makes the call fail with
    the rejection itself. *)
Theorem helpers_return_only_ok_bodies :
  forall (w : World) (cfg : Config) (endpoint : string) (p : Process),
    let answered (call : M string) (issue : M Pending) :=
      (forall body p',
          call p = (Returns body, p') ->
          exists rq res,
            issue p = (Returns rq, p')
            /\ In (Fetch (fst rq) (snd rq)) (trace p')
            /\ fetch w (fst rq) (snd rq) = FetchResolves res
            /\ res_ok res = true /\ res_text res = inr body)
      /\ (forall rq p1 res,
            issue p = (Returns rq, p1) ->
            fetch w (fst rq) (snd rq) = FetchResolves res ->
            res_ok res = false ->
            call p
            = (Throws (PlainError ("Request failed: " ++ Z_to_string (res_status res)
                                   ++ " " ++ res_statusText res)), p1))
      /\ (forall rq p1 e,
            issue p = (Returns rq, p1) ->
            fetch w (fst rq) (snd rq) = FetchRejects e ->
            call p = (Throws e, p1)) in
    (forall parameters,
        answered (getTodMarketsEndpoint w cfg endpoint parameters)
                 (get_issue w cfg endpoint parameters))
    /\ (forall payload,
          answered (postTodMarketsEndpoint w cfg endpoint payload)
                   (post_issue w cfg endpoint payload)).
Proof.
  intros w cfg endpoint p answered.
  assert (Hgen : forall issue : M Pending,
             (forall rq p1, issue p = (Returns rq, p1) ->
                            In (Fetch (fst rq) (snd rq)) (trace p1)) ->
             answered (rq <- issue ;; settle w rq) issue).
  { intros issue Hin. subst answered. cbv beta. unfold bind.
    split; [|split].
    - intros body p' H.
      destruct (issue p) as [[rq|e|n] p1] eqn:Hi; try discriminate.
      destruct (settle_returns _ _ _ _ _ H) as (Hp & res & Hf & Hok & Ht). subst p'.
      exists rq, res. repeat split; auto.
    - intros rq p1 res Hi Hf Hok. rewrite Hi. now apply settle_refused.
    - intros rq p1 e Hi Hf. rewrite Hi. unfold settle. now rewrite Hf. }
  split.
  - intros parameters. apply Hgen. intros rq p1. rewrite get_issue_run.
    destruct (URL_new w endpoint (DOMAIN_URL cfg)) as [r|]; [|discriminate].
    destruct (append_parameters _ _) as [e|u]; [discriminate|].
    intros H. inversion H; subst. cbn [fst snd trace with_trace].
    apply in_or_app. right. now left.
  - intros payload. apply Hgen. intros rq p1. rewrite post_issue_run.
    destruct (URL_new w endpoint (DOMAIN_URL cfg)) as [r|]; [|discriminate].
    cbv zeta. intros H. inversion H; subst. cbn [fst snd trace with_trace].
    apply in_or_app. right. now left.
Qed.

Lemma helpers_return_only_ok_bodies_witness :
  getTodMarketsEndpoint Scenario.refused Scenario.cfg "/api/company"
    (ParamValue JUndefined) initial_process
  = (Throws (PlainError "Request failed: 401 Unauthorized"),
     snd (get_issue Scenario.refused Scenario.cfg "/api/company"
            (ParamValue JUndefined) initial_process))
  /\ exists rq res,
       fetch (Scenario.answers Scenario.credentials) (fst rq) (snd rq)
       = FetchResolves res
       /\ res_text res = inr (Scenario.body_of Scenario.credentials).
Proof.
  split.
  - destruct (helpers_return_only_ok_bodies Scenario.refused Scenario.cfg
                "/api/company" initial_process) as [Hget _].
    destruct (Hget (ParamValue JUndefined)) as (_ & H & _).
    exact (H _ _ (mkResponse false 401 "Unauthorized" (inr "Unauthenticated."))
             eq_refl eq_refl eq_refl).
  - destruct (helpers_return_only_ok_bodies (Scenario.answers Scenario.credentials)
                Scenario.cfg "/api/company" initial_process) as [Hget _].
    destruct (Hget (ParamValue JUndefined)) as (H & _).
    destruct (H (Scenario.body_of Scenario.credentials)
                (snd (get_issue (Scenario.answers Scenario.credentials) Scenario.cfg
                        "/api/company" (ParamValue JUndefined) initial_process))
                eq_refl) as (rq & res & _ & _ & Hf & _ & Ht).
    now exists rq, res.
Defined.

(** *** API.js, lines 88-107: the POST *)

Lemma JSON_stringify_defined (v : Value) :
  JSON_stringify v = None <-> v = JUndefined.
Proof.
  split; [|intros H; subst; reflexivity].
  destruct v as [| |[]| | | |]; cbn [JSON_stringify]; try discriminate; reflexivity.
Qed.

(** X9.  [postTodMarketsEndpoint] prints nothing and sends at most one
    request: a POST to the resolved endpoint, with no query added, that
    follows redirects and carries exactly the two headers of a GET (the
    bearer credential and one [Content-Type], not two).  The request
    always has a body, the JSON text of the payload; a call without
    payload sends [{}]. *)
Theorem postTodMarketsEndpoint_request :
  forall (w : World) (cfg : Config) (endpoint : string) (payload : Value)
         (p : Process) (r : URLRecord),
    URL_new w endpoint (DOMAIN_URL cfg) = Some r ->
    exists body,
      let opts := mkRequestInit "POST" "follow"
                    [("Authorization", "Bearer " ++ API_KEY cfg);
                     ("Content-Type", "application/json")]
                    (Some body) in
      snd (postTodMarketsEndpoint w cfg endpoint payload p)
      = with_trace p (trace p ++ [Fetch (href (URL_of_record r)) opts])%list
      /\ (payload = JUndefined -> body = "{}")
      /\ (payload <> JUndefined -> JSON_stringify payload = Some body)
      /\ href (URL_of_record r)
         = rec_base r
           ++ match rec_query r with None => EmptyString | Some q => "?" ++ q end
           ++ rec_fragment r.
Proof.
  intros w cfg endpoint payload p r Hr.
  unfold postTodMarketsEndpoint, bind. rewrite post_issue_run, Hr. cbv zeta.
  set (payload' := match payload with JUndefined => JObj [] | _ => payload end).
  destruct (JSON_stringify payload') as [body|] eqn:Hb.
  - exists body.
    match goal with |- context [settle w ?rq ?p1] =>
      destruct (settle_frame w rq p1) as [Hs _];
      destruct (settle w rq p1) as [c p2] end.
    cbn [snd] in Hs. subst p2.
    split; [destruct c; reflexivity|].
    split; [|split; [|reflexivity]].
    + intros Hp. subst payload. subst payload'. cbn in Hb. now inversion Hb.
    + intros Hp. subst payload'. destruct payload; try congruence; exact Hb.
  - exfalso. apply JSON_stringify_defined in Hb. subst payload'.
    destruct payload; discriminate.
Qed.

Lemma postTodMarketsEndpoint_request_witness :
  exists body,
    In (Fetch "https://staging.todmarkets.com.au/company"
          (mkRequestInit "POST" "follow"
             [("Authorization", "Bearer secret-api-key");
              ("Content-Type", "application/json")] (Some body)))
       (trace (snd (postTodMarketsEndpoint (Scenario.answers Scenario.credentials)
                      Scenario.cfg "/company" JUndefined initial_process)))
    /\ body = "{}".
Proof.
  destruct (postTodMarketsEndpoint_request
              (Scenario.answers Scenario.credentials) Scenario.cfg "/company"
              JUndefined initial_process
              (mkURLRecord "https://staging.todmarkets.com.au/company" None EmptyString)
              eq_refl) as (body & H1 & H2 & _).
  exists body. split; [|exact (H2 eq_refl)].
  cbv zeta in H1. rewrite H1. cbn [trace with_trace initial_process app].
  left. reflexivity.
Defined.

(** *** What a whole run adds to the trace *)

Lemma grows_ret {A : Type} (P : Event -> Prop) (a : A) : grows P (ret a).
Proof. intros p. exists []. split; [now rewrite app_nil_r|constructor]. Qed.

Lemma grows_throw {A : Type} (P : Event -> Prop) (e : Error) : grows P (@throw A e).
Proof. intros p. exists []. split; [now rewrite app_nil_r|constructor]. Qed.

Lemma grows_lift {A : Type} (P : Event -> Prop) (r : Error + A) : grows P (lift r).
Proof. destruct r; [apply grows_throw|apply grows_ret]. Qed.

Lemma grows_emit (P : Event -> Prop) (e : Event) : P e -> grows P (emit e).
Proof. intros H p. exists [e]. split; [reflexivity|now repeat constructor]. Qed.

Lemma grows_process_exit {A : Type} (P : Event -> Prop) (n : Z) :
  P (ProcessExit n) -> grows P (@process_exit A n).
Proof. intros H p. exists [ProcessExit n]. split; [reflexivity|now repeat constructor]. Qed.

Lemma grows_update_details (P : Event -> Prop) f : grows P (update_details f).
Proof. intros p. exists []. split; [now rewrite app_nil_r|constructor]. Qed.

Lemma grows_update_clients (P : Event -> Prop) f : grows P (update_clients f).
Proof. intros p. exists []. split; [now rewrite app_nil_r|constructor]. Qed.

Lemma grows_read_details (P : Event -> Prop) : grows P read_details.
Proof. intros p. exists []. split; [now rewrite app_nil_r|constructor]. Qed.

Lemma grows_bind {A B : Type} (P : Event -> Prop) (c : M A) (k : A -> M B) :
  grows P c -> (forall a, grows P (k a)) -> grows P (bind c k).
Proof.
  intros Hc Hk p. unfold bind. destruct (Hc p) as (d1 & H1 & F1).
  destruct (c p) as [[a|e|n] p1]; cbn [snd] in *.
  - destruct (Hk a p1) as (d2 & H2 & F2). exists (d1 ++ d2)%list.
    split; [now rewrite H2, H1, app_assoc|now apply Forall_app].
  - now exists d1.
  - now exists d1.
Qed.

Lemma grows_try_catch {A : Type} (P : Event -> Prop) (c : M A) (h : Error -> M A) :
  grows P c -> (forall e, grows P (h e)) -> grows P (try_catch c h).
Proof.
  intros Hc Hh p. unfold try_catch. destruct (Hc p) as (d1 & H1 & F1).
  destruct (c p) as [[a|e|n] p1]; cbn [snd] in *.
  - now exists d1.
  - destruct (Hh e p1) as (d2 & H2 & F2). exists (d1 ++ d2)%list.
    split; [now rewrite H2, H1, app_assoc|now apply Forall_app].
  - now exists d1.
Qed.

Lemma grows_attempt {A : Type} (P : Event -> Prop) (c : M A) :
  grows P c -> grows P (attempt c).
Proof.
  intros Hc. unfold attempt. apply grows_try_catch.
  - apply grows_bind; [exact Hc|intros a; apply grows_ret].
  - intros e. apply grows_ret.
Qed.

Lemma grows_settle (P : Event -> Prop) (w : World) (rq : Pending) :
  grows P (settle w rq).
Proof.
  intros p. destruct (settle_frame w rq p) as [Hs _]. rewrite Hs.
  exists []. split; [now rewrite app_nil_r|constructor].
Qed.

Create HintDb grows.
#[local] Hint Resolve grows_ret grows_throw grows_lift grows_emit grows_process_exit
  grows_update_details grows_update_clients grows_read_details grows_settle : grows.

Ltac grow :=
  repeat first
    [ apply grows_bind; [|intros ?]
    | apply grows_try_catch; [|intros ?]
    | apply grows_attempt
    | solve [auto with grows] ].

Lemma grows_get_issue (w : World) (cfg : Config) (endpoint : string)
      (parameters : Parameters) :
  grows (authenticated (API_KEY cfg)) (get_issue w cfg endpoint parameters).
Proof.
  unfold get_issue, new_URL, console_log.
  destruct (URL_new w endpoint (DOMAIN_URL cfg)); grow;
    apply grows_emit; cbn; auto.
Qed.

Lemma grows_post_issue (w : World) (cfg : Config) (endpoint : string)
      (payload : Value) :
  grows (authenticated (API_KEY cfg)) (post_issue w cfg endpoint payload).
Proof.
  unfold post_issue, new_URL.
  destruct (URL_new w endpoint (DOMAIN_URL cfg)); grow;
    apply grows_emit; cbn; auto.
Qed.

Lemma grows_bind_returning {A B : Type} (P : Event -> Prop) (Q : A -> Prop)
      (c : M A) (k : A -> M B) :
  grows P c ->
  (forall p a p1, c p = (Returns a, p1) -> Q a) ->
  (forall a, Q a -> grows P (k a)) ->
  grows P (bind c k).
Proof.
  intros Hc HQ Hk p. unfold bind. destruct (Hc p) as (d1 & H1 & F1).
  destruct (c p) as [[a|e|n] p1] eqn:E; cbn [snd] in *.
  - destruct (Hk a (HQ _ _ _ E) p1) as (d2 & H2 & F2). exists (d1 ++ d2)%list.
    split; [now rewrite H2, H1, app_assoc|now apply Forall_app].
  - now exists d1.
  - now exists d1.
Qed.

Lemma load_config_returns (env : Env) (p p' : Process) (cfg : Config) :
  load_config env p = (Returns cfg, p') ->
  env_API_KEY env = Some (API_KEY cfg) /\ env_DOMAIN_URL env = Some (DOMAIN_URL cfg).
Proof.
  destruct env as [k d]. unfold load_config, require_setting.
  cbn [env_API_KEY env_DOMAIN_URL].
  destruct k as [k|]; [|monadic; discriminate].
  destruct (missing (Some k)); [monadic; discriminate|].
  destruct d as [d|]; [|monadic; discriminate].
  destruct (missing (Some d)); [monadic; discriminate|].
  monadic. intros H. inversion H; subst. split; reflexivity.
Qed.

Lemma grows_load_config (key : string) (env : Env) :
  grows (authenticated key) (load_config env).
Proof.
  unfold load_config, require_setting, console_error.
  destruct (env_API_KEY env) as [k|], (env_DOMAIN_URL env) as [d|];
    try destruct (missing (Some k)); try destruct (missing (Some d));
    grow; first [apply grows_emit | apply grows_process_exit]; exact I.
Qed.

Lemma grows_report (key : string) (r : Error + string) :
  grows (authenticated key) (report r).
Proof. destruct r; apply grows_emit; exact I. Qed.

Lemma grows_API_main (w : World) (cfg : Config) (get_settles_first : bool) :
  grows (authenticated (API_KEY cfg)) (API_main w cfg get_settles_first).
Proof.
  pose proof (grows_report (API_KEY cfg)) as Hrep.
  unfold API_main.
  apply grows_bind; [apply grows_attempt, grows_get_issue|intros g].
  apply grows_bind; [apply grows_attempt, grows_post_issue|intros q].
  destruct g, q, get_settles_first; grow; apply Hrep.
Qed.

Lemma grows_getTodMarketsEndpoint (w : World) (cfg : Config) (endpoint : string)
      (parameters : Parameters) :
  grows (authenticated (API_KEY cfg)) (getTodMarketsEndpoint w cfg endpoint parameters).
Proof.
  unfold getTodMarketsEndpoint. apply grows_bind; [apply grows_get_issue|].
  intros rq. apply grows_settle.
Qed.

Lemma grows_establish (w : World) (cfg : Config) :
  grows (authenticated (API_KEY cfg)) (establishWebSocketConnection w cfg).
Proof.
  unfold establishWebSocketConnection, getWebsocketDetails, setWebsocketDetails,
    new_Pusher, pusher_subscribe, channel_bind, prop, console_log, console_error.
  repeat first
    [ apply grows_getTodMarketsEndpoint
    | apply grows_bind; [|intros ?]
    | apply grows_try_catch; [|intros ?]
    | apply grows_emit; exact I
    | match goal with |- grows _ (match ?x with _ => _ end) => destruct x end
    | solve [auto with grows] ].
Qed.

(** X10.  Every request is authenticated: whatever the world answers
    and in whatever order answers arrive, each request in the trace of a
    run of API.js, and each request [establishWebSocketConnection]
    sends, carries the configured API key as
    [Authorization: Bearer <key>] and the content type
    [application/json]. *)
Theorem every_request_carries_the_bearer :
  forall (w : World) (env : Env) (key : string) (cfg : Config)
         (is_main get_settles_first : bool) (p : Process),
    env_API_KEY env = Some key ->
    (exists d,
        trace (snd (API_js w env is_main get_settles_first p)) = (trace p ++ d)%list
        /\ forall url init,
             In (Fetch url init) d ->
             In ("Authorization", "Bearer " ++ key) (req_headers init)
             /\ In ("Content-Type", "application/json") (req_headers init))
    /\ (exists d,
          trace (snd (establishWebSocketConnection w cfg p)) = (trace p ++ d)%list
          /\ forall url init,
               In (Fetch url init) d ->
               In ("Authorization", "Bearer " ++ API_KEY cfg) (req_headers init)
               /\ In ("Content-Type", "application/json") (req_headers init)).
Proof.
  intros w env key cfg is_main sched p Hk.
  assert (HQ : forall q c q1, load_config env q = (Returns c, q1) ->
                              API_KEY c = key).
  { intros q c q1 H. apply load_config_returns in H. destruct H as [H _].
    congruence. }
  assert (Hapi : grows (authenticated key) (API_js w env is_main sched)).
  { unfold API_js.
    apply (grows_bind_returning _ (fun c => API_KEY c = key));
      [apply grows_load_config|exact HQ|].
    intros c Hc. subst key.
    apply grows_bind; [destruct is_main; [apply grows_API_main|apply grows_ret]|].
    intros _. apply grows_ret. }
  assert (Hread : forall k d, Forall (authenticated k) d ->
             forall url init, In (Fetch url init) d ->
               In ("Authorization", "Bearer " ++ k) (req_headers init)
               /\ In ("Content-Type", "application/json") (req_headers init)).
  { intros k d Hd url init Hin. rewrite Forall_forall in Hd. exact (Hd _ Hin). }
  split.
  - destruct (Hapi p) as (d & Ht & Hd). exists d. split; [exact Ht|].
    now apply Hread.
  - destruct (grows_establish w cfg p) as (d & Ht & Hd). exists d.
    split; [exact Ht|]. now apply Hread.
Qed.

Lemma every_request_carries_the_bearer_witness :
  let run := API_js Scenario.reachable Scenario.env true true initial_process in
  let post := mkRequestInit "POST" "follow"
                [("Authorization", "Bearer secret-api-key");
                 ("Content-Type", "application/json")]
                (JSON_stringify example_order) in
  In (Fetch "https://staging.todmarkets.com.au/api/order" post) (trace (snd run))
  /\ List.length (filter is_Fetch (trace (snd run))) = 2
  /\ In ("Authorization", "Bearer secret-api-key") (req_headers post).
Proof.
  intros run post.
  assert (Hin : In (Fetch "https://staging.todmarkets.com.au/api/order" post)
                   (trace (snd run))).
  { vm_compute. right. right. left. reflexivity. }
  split; [exact Hin|]. split; [reflexivity|].
  destruct (every_request_carries_the_bearer
              Scenario.reachable Scenario.env "secret-api-key" Scenario.cfg
              true true initial_process eq_refl) as [(d & Ht & Hd) _].
  fold run in Ht. rewrite Ht in Hin.
  exact (proj1 (Hd _ _ Hin)).
Defined.

(** *** API.js, lines 109-124: the example calls *)








(** *** websocket.js, lines 149-157: [setWebsocketDetails] *)

Lemma setWebsocketDetails_run (details : Value) (p : Process) :
  setWebsocketDetails details p =
  match get details "id" with
  | inl e => (Throws e, p)
  | inr _ => (Returns tt, with_details p (copied details))
  end.
Proof.
  unfold setWebsocketDetails. monadic.
  destruct details; reflexivity.
Qed.

(** X12.  [setWebsocketDetails] is all or nothing.  Given null or
    undefined it throws a TypeError and has written no field.  Given
    anything else it writes all seven fields and touches nothing else;
    what it leaves does not depend on what was stored before, so calling
    it again with the same argument changes nothing.  A value that is
    not an object (a number, a text, a boolean, an array) is accepted
    and wipes the seven fields to undefined. *)
Theorem setWebsocketDetails_all_or_nothing :
  forall (details : Value) (p : Process),
    (nullish details = true ->
     exists msg, setWebsocketDetails details p = (Throws (TypeError msg), p))
    /\ (nullish details = false ->
        setWebsocketDetails details p
        = (Returns tt, with_details p (copied details))
        /\ (forall q,
              websocketDetails (snd (setWebsocketDetails details q))
              = websocketDetails (snd (setWebsocketDetails details p)))
        /\ setWebsocketDetails details (snd (setWebsocketDetails details p))
           = (Returns tt, snd (setWebsocketDetails details p)))
    /\ (nullish details = false ->
        (forall props, details <> JObj props) ->
        copied details
        = mkDetails JUndefined JUndefined JUndefined JUndefined
                    JUndefined JUndefined JUndefined).
Proof.
  intros details p. split; [|split].
  - intros H. rewrite setWebsocketDetails_run.
    destruct details; try discriminate; eexists; reflexivity.
  - intros H. rewrite !setWebsocketDetails_run.
    rewrite (get_field _ _ H). repeat split.
    intros q. now rewrite setWebsocketDetails_run, (get_field _ _ H).
  - intros H Hobj. destruct details; try discriminate; try reflexivity.
    exfalso. now apply (Hobj props).
Qed.

Lemma setWebsocketDetails_all_or_nothing_witness :
  fst (setWebsocketDetails JNull Scenario.connected_before)
    = Throws (TypeError "Cannot read properties of null (reading 'id')")
  /\ snd (setWebsocketDetails JNull Scenario.connected_before)
     = Scenario.connected_before
  /\ websocketDetails (snd (setWebsocketDetails Scenario.credentials initial_process))
     = Scenario.stored
  /\ copied (JStr "oops")
     = mkDetails JUndefined JUndefined JUndefined JUndefined
                 JUndefined JUndefined JUndefined.
Proof.
  destruct (setWebsocketDetails_all_or_nothing JNull Scenario.connected_before)
    as (H1 & _).
  destruct (H1 eq_refl) as [msg Hm].
  destruct (setWebsocketDetails_all_or_nothing Scenario.credentials initial_process)
    as (_ & H2 & _).
  destruct (H2 eq_refl) as (Hs & _).
  destruct (setWebsocketDetails_all_or_nothing (JStr "oops") initial_process)
    as (_ & _ & H3).
  split; [reflexivity|]. split; [now rewrite Hm|]. split; [now rewrite Hs|].
  apply H3; [reflexivity|discriminate].
Defined.

(** *** websocket.js, lines 134-137: the environment URL *)

Lemma substring_split (s : string) (k : nat) :
  k <= String.length s ->
  substring 0 k s ++ substring k (String.length s - k) s = s.
Proof.
  revert k. induction s as [|c s IH]; intros k Hk.
  - cbn in Hk. assert (k = 0) by lia. subst k. reflexivity.
  - destruct k as [|k].
    + cbn [substring String.length Nat.sub]. rewrite append_empty.
      now rewrite substring_all.
    + cbn [substring String.length Nat.sub]. rewrite append_cons.
      cbn [String.length] in Hk. rewrite IH by lia. reflexivity.
Qed.

(** A string ends with a suffix exactly when it is something followed by
    the suffix. *)
Lemma ends_with_decompose (suffix s : string) :
  ends_with suffix s = true ->
  s = drop_last (String.length suffix) s ++ suffix.
Proof.
  unfold ends_with, drop_last. intros H. apply andb_prop in H.
  destruct H as [Hle Heq]. apply Nat.leb_le in Hle. apply String.eqb_eq in Heq.
  assert (Hk : String.length s - String.length suffix <= String.length s) by lia.
  pose proof (substring_split s _ Hk) as Hs.
  replace (String.length s - (String.length s - String.length suffix))
    with (String.length suffix) in Hs by lia.
  rewrite Heq in Hs. now symmetry.
Qed.

Lemma append_assoc (a b c : string) : (a ++ b) ++ c = a ++ (b ++ c).
Proof.
  induction a as [|x a IH]; rewrite ?append_cons, ?append_empty; [reflexivity|].
  now rewrite IH.
Qed.

Lemma append_cancel_right (a b c : string) : a ++ c = b ++ c -> a = b.
Proof.
  intros H.
  assert (Hlen : String.length a = String.length b).
  { apply (f_equal String.length) in H. rewrite !length_append in H. lia. }
  rewrite <- (substring_prefix a c), <- (substring_prefix b c), H, Hlen. reflexivity.
Qed.

(** X13.  The environment URL is the base URL with at most one thing
    taken off its end: the base URL is always the environment URL
    followed by nothing, by [/api] or by [/api/].  Only the last such
    segment goes: a base URL ending in [/api/api] keeps one [/api]. *)
Theorem environment_url_is_a_prefix :
  forall (cfg : Config) (b : string),
    (exists suffix,
        In suffix api_suffixes /\ DOMAIN_URL cfg = environmentURL cfg ++ suffix)
    /\ String.length (environmentURL cfg) <= String.length (DOMAIN_URL cfg)
    /\ String.length (DOMAIN_URL cfg) <= String.length (environmentURL cfg) + 5
    /\ remove_trailing_api ((b ++ "/api") ++ "/api") = b ++ "/api".
Proof.
  intros cfg b. unfold environmentURL. generalize (DOMAIN_URL cfg). intros s.
  assert (H : exists suffix,
             In suffix api_suffixes /\ s = remove_trailing_api s ++ suffix).
  { unfold remove_trailing_api, api_suffixes.
    destruct (ends_with "/api/" s) eqn:H5.
    - exists "/api/". split; [cbn; auto|]. exact (ends_with_decompose "/api/" s H5).
    - destruct (ends_with "/api" s) eqn:H4.
      + exists "/api". split; [cbn; auto|]. exact (ends_with_decompose "/api" s H4).
      + exists EmptyString. split; [cbn; auto|].
        clear. induction s as [|c s IH]; [reflexivity|].
        rewrite append_cons. now rewrite <- IH. }
  split; [exact H|].
  destruct H as (suffix & Hin & Hs).
  assert (Hlen : String.length s
                 = String.length (remove_trailing_api s) + String.length suffix).
  { rewrite Hs at 1. apply length_append. }
  assert (Hsuf : String.length suffix <= 5).
  { destruct Hin as [H|[H|[H|[]]]]; subst suffix; cbn; lia. }
  repeat split; try lia.
  apply (remove_trailing_api_segment (b ++ "/api")).
Qed.

Lemma last_character (x y : string) (c1 c2 : ascii) :
  x ++ String c1 EmptyString = y ++ String c2 EmptyString -> c1 = c2.
Proof.
  intros H.
  assert (Hlen : String.length x = String.length y).
  { apply (f_equal String.length) in H. rewrite !length_append in H. cbn in H. lia. }
  pose proof (append_correct2 x (String c1 EmptyString) 0) as H1.
  pose proof (append_correct2 y (String c2 EmptyString) 0) as H2.
  cbn [String.get Nat.add] in H1, H2. rewrite H, Hlen, <- H2 in H1. now inversion H1.
Qed.

Lemma trailing_slash_is_kept (b : string) :
  ends_with "/api" b = false -> remove_trailing_api (b ++ "/") = b ++ "/".
Proof.
  intros Hb. unfold remove_trailing_api.
  destruct (ends_with "/api/" (b ++ "/")) eqn:H5.
  - exfalso. apply ends_with_decompose in H5.
    change "/api/" with ("/api" ++ "/") in H5 at 2. rewrite <- append_assoc in H5.
    apply append_cancel_right in H5.
    rewrite H5, ends_with_append in Hb. discriminate.
  - destruct (ends_with "/api" (b ++ "/")) eqn:H4; [|reflexivity].
    exfalso. apply ends_with_decompose in H4.
    change "/api" with ("/ap" ++ "i") in H4 at 2. rewrite <- append_assoc in H4.
    apply last_character in H4. discriminate.
Qed.

(** X14.  A base URL that ends in a slash without an [/api] segment
    before it keeps the slash, so the authorization endpoint handed to
    the Pusher constructor has two slashes before [broadcasting/auth]. *)
Theorem trailing_slash_doubles_in_the_auth_endpoint :
  forall (w : World) (cfg : Config) (p : Process) (b : string),
    DOMAIN_URL cfg = b ++ "/" ->
    ends_with "/api" b = false ->
    environmentURL cfg = b ++ "/"
    /\ exists key opts rest,
         trace (snd (establishWebSocketConnection w cfg p))
         = (trace (snd (getWebsocketDetails w cfg p))
            ++ PusherLogToConsole true :: NewPusher key opts :: rest)%list
         /\ opt_authEndpoint opts = b ++ "//broadcasting/auth".
Proof.
  intros w cfg p b Hd Hb.
  assert (He : environmentURL cfg = b ++ "/").
  { unfold environmentURL. rewrite Hd. now apply trailing_slash_is_kept. }
  split; [exact He|].
  rewrite establishWebSocketConnection_run. cbv zeta.
  assert (Ho : forall d, opt_authEndpoint (pusher_options cfg d)
                         = b ++ "//broadcasting/auth").
  { intros d. cbn [pusher_options opt_authEndpoint].
    fold (environmentURL cfg). rewrite He. now rewrite append_assoc. }
  destruct (Pusher_new w _ _); [|destruct (Pusher_subscribe w _)];
    cbn [snd trace]; rewrite <- ?app_assoc;
    do 3 eexists; (split; [reflexivity|apply Ho]).
Qed.

Lemma trailing_slash_doubles_in_the_auth_endpoint_witness :
  environmentURL (mkConfig "k" "https://host/") = "https://host/"
  /\ opt_authEndpoint (pusher_options (mkConfig "k" "https://host/") initial_details)
     = "https://host//broadcasting/auth".
Proof.
  destruct (trailing_slash_doubles_in_the_auth_endpoint
              Scenario.unreachable (mkConfig "k" "https://host/") initial_process
              "https://host" eq_refl eq_refl) as (H1 & _).
  split; [exact H1|reflexivity].
Defined.

(** *** websocket.js, lines 185-206: the order of the handshake *)

Lemma grows_refresh (P : Event -> Prop) (w : World) (cfg : Config) :
  (forall e, is_console e = true \/ is_Fetch e = true -> P e) ->
  grows P (getWebsocketDetails w cfg).
Proof.
  intros HP.
  unfold getWebsocketDetails, getTodMarketsEndpoint, get_issue, new_URL,
    setWebsocketDetails, prop, console_log, console_error.
  repeat first
    [ apply grows_bind; [|intros ?]
    | apply grows_try_catch; [|intros ?]
    | apply grows_emit; apply HP; cbn; auto
    | match goal with |- grows _ (match ?x with _ => _ end) => destruct x end
    | solve [auto with grows] ].
Qed.


Lemma private_prefix_changes_the_name (s : string) : "private-" ++ s <> s.
Proof.
  intros H. apply (f_equal String.length) in H. rewrite length_append in H.
  cbn in H. lia.
Qed.

(** X16.  The channel that is subscribed is never the one the [channels]
    table names: the table's entry computes [private-] followed by the
    text of the channel key (and throws when the key has no text), the
    handshake subscribes to the channel key itself, and the two names
    differ for every channel key, so nothing is bound under the table's
    name. *)
Theorem subscribed_channel_is_not_the_table_channel :
  forall (w : World) (cfg : Config) (p : Process),
    fst (establishWebSocketConnection w cfg p) = Returns JUndefined ->
    let p' := snd (establishWebSocketConnection w cfg p) in
    exists c ch,
      clients p' = c :: clients p
      /\ subscriptions c = [ch]
      /\ chan_name ch = channel_key (websocketDetails p')
      /\ "private-" ++ to_string (chan_name ch) <> to_string (chan_name ch)
      /\ Transport.bound_handlers c ("private-" ++ to_string (chan_name ch)) "update"
         = []
      /\ forall key spec,
           In (key, spec) channels ->
           spec_name spec (websocketDetails p')
           = (if convertible (chan_name ch)
              then inr ("private-" ++ to_string (chan_name ch))
              else inl unconvertible)
           /\ forall name,
                spec_name spec (websocketDetails p') = inr name ->
                name = "private-" ++ to_string (chan_name ch)
                /\ name <> to_string (chan_name ch)
                /\ Transport.bound_handlers c name "update" = [].
Proof.
  intros w cfg p Hr p'.
  pose proof (established_client w cfg p Hr) as Hc. cbv zeta in Hc. fold p' in Hc.
  assert (Hnone : forall c0 n,
             subscriptions c0 = [mkChannel n [("update", OnUpdate)]] ->
             Transport.bound_handlers c0 ("private-" ++ to_string n) "update" = []).
  { intros c0 n Hs. unfold Transport.bound_handlers. rewrite Hs.
    cbn [flat_map chan_name].
    destruct (String.eqb _ _) eqn:He; [|reflexivity].
    apply String.eqb_eq in He. symmetry in He.
    now apply private_prefix_changes_the_name in He. }
  do 2 eexists. split; [exact Hc|]. split; [reflexivity|]. split; [reflexivity|].
  cbn [chan_name].
  split; [apply private_prefix_changes_the_name|].
  split; [now apply Hnone|].
  intros key spec [Hin|[]]. inversion Hin; subst. cbn [spec_name].
  unfold ToString.
  split; [destruct (convertible _); reflexivity|].
  intros name Hn. destruct (convertible _); [|discriminate]. inversion Hn; subst.
  split; [reflexivity|]. split; [apply private_prefix_changes_the_name|].
  now apply Hnone.
Qed.

Lemma subscribed_channel_is_not_the_table_channel_witness :
  let p' := snd (establishWebSocketConnection (Scenario.answers Scenario.credentials)
                   Scenario.cfg initial_process) in
  exists c ch,
    clients p' = [c] /\ chan_name ch = JStr "k1"
    /\ (forall key spec, In (key, spec) channels ->
                         spec_name spec (websocketDetails p') = inr "private-k1")
    /\ Transport.bound_handlers c "private-k1" "update" = [].
Proof.
  intros p'.
  destruct (subscribed_channel_is_not_the_table_channel
              (Scenario.answers Scenario.credentials) Scenario.cfg initial_process
              eq_refl) as (c & ch & H1 & _ & H3 & _ & H5 & H6).
  exists c, ch. split; [exact H1|]. split; [exact H3|].
  assert (Hk : to_string (chan_name ch) = "k1") by now rewrite H3.
  rewrite Hk in H5. split; [|exact H5].
  intros key spec Hin. destruct (H6 key spec Hin) as (H7 & _).
  fold p' in H7. rewrite H7, H3. reflexivity.
Defined.

(** *** A query string made by [URLSearchParams] *)

Lemma serialized_has_no_question (s : string) :
  contains "?" (urlencoded_byte_serialize s) = false.
Proof.
  induction s as [|c s IH]; [reflexivity|].
  rewrite serialize_cons, contains_append, IH, orb_false_r.
  destruct c as [[] [] [] [] [] [] [] []]; reflexivity.
Qed.

Lemma serialized_list_has_no_question (l : list (string * string)) :
  contains "?" (urlencoded_serialize l) = false.
Proof.
  unfold urlencoded_serialize.
  induction l as [|kv l IH]; [reflexivity|].
  assert (Hp : contains "?" (serialize_pair kv) = false).
  { unfold serialize_pair. rewrite !contains_append, !serialized_has_no_question.
    reflexivity. }
  destruct l as [|kv' l]; [exact Hp|].
  change (join "&" (map serialize_pair (kv :: kv' :: l)))
    with (serialize_pair kv ++ "&" ++ join "&" (map serialize_pair (kv' :: l))).
  rewrite !contains_append, Hp, IH. reflexivity.
Qed.

Lemma starts_with_contains (s : string) :
  starts_with "?" s = true -> contains "?" s = true.
Proof.
  destruct s as [|c s]; [discriminate|].
  rewrite starts_with_question. cbn [contains]. intros H. now rewrite H.
Qed.

(** X17.  A query string written by [URLSearchParams] goes through
    unchanged: passing the serialization of a list of pairs as a string
    requests the same URL as passing the [URLSearchParams] instance that
    holds the pairs, whatever the names and values contain. *)
Theorem serialized_string_is_the_instance :
  forall (w : World) (cfg : Config) (endpoint : string) (p : Process)
         (pairs : list (string * string)),
    getTodMarketsEndpoint w cfg endpoint
      (ParamValue (JStr (urlencoded_serialize pairs))) p
    = getTodMarketsEndpoint w cfg endpoint (ParamSearchParams pairs) p.
Proof.
  intros w cfg endpoint p pairs.
  assert (H : forall u,
             append_parameters u (ParamValue (JStr (urlencoded_serialize pairs)))
             = append_parameters u (ParamSearchParams pairs)).
  { intros u. cbn [append_parameters truthy].
    assert (Hq : starts_with "?" (urlencoded_serialize pairs) = false).
    { destruct (starts_with "?" (urlencoded_serialize pairs)) eqn:E; [|reflexivity].
      apply starts_with_contains in E.
      now rewrite serialized_list_has_no_question in E. }
    destruct (String.eqb (urlencoded_serialize pairs) EmptyString) eqn:He; cbn [negb].
    - apply String.eqb_eq in He. destruct pairs as [|kv pairs]; [reflexivity|].
      exfalso. pose proof (parse_serialized (kv :: pairs)) as Hp.
      rewrite He in Hp. discriminate Hp.
    - rewrite Hq. unfold URLSearchParams_of_string. rewrite Hq.
      now rewrite parse_serialized. }
  unfold getTodMarketsEndpoint, get_issue. cbv beta delta [bind].
  destruct (new_URL w cfg endpoint p) as [[u|e|n] p1]; try reflexivity.
  now rewrite H.
Qed.

(** *** What the connection routes *)

Lemma no_bind_among_console_and_fetch (d : list Event) :
  Forall (fun e => is_console e = true \/ is_Fetch e = true) d ->
  filter is_Bind d = [].
Proof.
  induction 1 as [|e d He _ IH]; [reflexivity|].
  cbn [filter]. rewrite IH.
  destruct e; try reflexivity; destruct He as [He|He]; discriminate He.
Qed.

(** C4 (as the code has it).  When [establishWebSocketConnection]
    resolves in a process that had no client before, the process has one
    client with one channel, the one named by [channel_key], and one
    callback on it, the one for the event [update]; the only [bind] of
    the run is that one.  An inbound [update] on that channel calls the
    callback exactly once, with the payload as it came, and it prints
    the payload.  No other inbound event calls anything, on whatever
    channel: in particular the four event names of the [channels] table
    reach no callback on any channel, and the table's handler is bound
    nowhere. *)
Theorem C4_only_update_is_routed :
  forall (w : World) (cfg : Config) (p : Process) (payload : Value),
    clients p = [] ->
    fst (establishWebSocketConnection w cfg p) = Returns JUndefined ->
    let p' := snd (establishWebSocketConnection w cfg p) in
    let ck := channel_key (websocketDetails p') in
    let k := to_string ck in
    clients p'
      = [mkPusher (pusher_key (websocketDetails p'))
                  (pusher_options cfg (websocketDetails p'))
                  [mkChannel ck [("update", OnUpdate)]]]
    /\ (exists added,
          trace p' = (trace p ++ added)%list
          /\ filter is_Bind added = [Bind ck "update" OnUpdate])
    /\ (forall c channel event h,
          In c (clients p') ->
          In h (Transport.bound_handlers c channel event) ->
          channel = k /\ event = "update" /\ h = OnUpdate)
    /\ Transport.deliver k "update" payload p'
       = (Returns tt,
          with_trace p'
            (trace p' ++ [Invoke OnUpdate payload;
                          ConsoleLog [LText "Received update:"; LValue payload]])%list)
    /\ (forall channel event,
          String.eqb channel k && String.eqb event "update" = false ->
          Transport.deliver channel event payload p' = (Returns tt, p'))
    /\ (forall table_key spec event h,
          In (table_key, spec) channels ->
          In (event, h) (spec_events spec) ->
          h = OnRow
          /\ forall channel,
               Transport.deliver channel event payload p' = (Returns tt, p')).
Proof.
  intros w cfg p payload Hc Hr p' ck k.
  pose proof (established_client w cfg p Hr) as Hcl. cbv zeta in Hcl.
  fold p' in Hcl. rewrite Hc in Hcl. fold ck in Hcl.
  assert (Hb : forall channel event,
             Transport.bound_handlers
               (mkPusher (pusher_key (websocketDetails p'))
                         (pusher_options cfg (websocketDetails p'))
                         [mkChannel ck [("update", OnUpdate)]]) channel event
             = if String.eqb channel k && String.eqb event "update"
               then [OnUpdate] else []).
  { intros channel event. unfold Transport.bound_handlers.
    cbn [subscriptions flat_map chan_name chan_bindings filter fst snd map app].
    fold k. rewrite (String.eqb_sym k channel), (String.eqb_sym "update" event).
    destruct (String.eqb channel k); [|reflexivity].
    destruct (String.eqb event "update"); reflexivity. }
  assert (Hd : forall channel event,
             Transport.deliver channel event payload p'
             = Transport.invoke_all
                 (if String.eqb channel k && String.eqb event "update"
                  then [OnUpdate] else []) payload p').
  { intros channel event. unfold Transport.deliver. rewrite Hcl.
    cbn [flat_map]. now rewrite Hb, app_nil_r. }
  assert (Hother : forall channel event,
             String.eqb channel k && String.eqb event "update" = false ->
             Transport.deliver channel event payload p' = (Returns tt, p')).
  { intros channel event H. now rewrite Hd, H. }
  split; [exact Hcl|]. split; [|split; [|split; [|split; [exact Hother|]]]].
  - destruct (grows_refresh (fun e => is_console e = true \/ is_Fetch e = true)
                w cfg (fun e H => H) p) as (d0 & Ht & Hd0).
    subst p' ck. rewrite establishWebSocketConnection_run in *. cbv zeta in *.
    destruct (Pusher_new w _ _); [discriminate|].
    destruct (Pusher_subscribe w _); [discriminate|].
    cbn [snd trace websocketDetails]. rewrite Ht.
    eexists. rewrite <- !app_assoc. split; [reflexivity|].
    rewrite filter_app, (no_bind_among_console_and_fetch _ Hd0). reflexivity.
  - intros c channel event h Hin Hh. rewrite Hcl in Hin.
    destruct Hin as [Hin|[]]. subst c. rewrite Hb in Hh.
    destruct (String.eqb channel k) eqn:E1; [|destruct Hh].
    destruct (String.eqb event "update") eqn:E2; [|destruct Hh].
    apply String.eqb_eq in E1, E2. destruct Hh as [Hh|[]]. auto.
  - rewrite Hd, !String.eqb_refl.
    cbn [andb Transport.invoke_all run_handler]. monadic.
    cbn [websocketDetails clients trace]. unfold with_trace.
    now rewrite <- app_assoc.
  - intros table_key spec event h Hin Hev.
    destruct Hin as [Hin|[]]. inversion Hin; subst. cbn [spec_events] in Hev.
    assert (He : h = OnRow /\ String.eqb event "update" = false).
    { repeat (destruct Hev as [Hev|Hev]; [inversion Hev; split; reflexivity|]).
      destruct Hev. }
    destruct He as [Hh He]. split; [exact Hh|].
    intros channel. apply Hother. rewrite He. apply andb_false_r.
Qed.

Lemma C4_witness :
  let p' := snd (establishWebSocketConnection (Scenario.answers Scenario.credentials)
                   Scenario.cfg initial_process) in
  Observe.invocations OnUpdate Scenario.order_filled
    (trace (snd (Transport.deliver "k1" "update" Scenario.order_filled p'))) = 1
  /\ Transport.deliver "k1" "App\Events\OrderFilled" Scenario.order_filled p'
     = (Returns tt, p')
  /\ Transport.deliver "private-k1" "App\Events\OrderFilled" Scenario.order_filled p'
     = (Returns tt, p')
  /\ List.length (clients p') = 1.
Proof.
  destruct (C4_only_update_is_routed
              (Scenario.answers Scenario.credentials) Scenario.cfg initial_process
              Scenario.order_filled eq_refl eq_refl) as (H0 & _ & _ & H1 & _ & H3).
  split; [|split; [|split]].
  - change (to_string (channel_key (websocketDetails
              (snd (establishWebSocketConnection (Scenario.answers Scenario.credentials)
                      Scenario.cfg initial_process))))) with "k1" in H1.
    cbv zeta. rewrite H1. vm_compute. reflexivity.
  - refine (proj2 (H3 "private-company" _ "App\Events\OrderFilled" OnRow _ _) "k1").
    + left. reflexivity.
    + cbn. right. right. left. reflexivity.
  - refine (proj2 (H3 "private-company" _ "App\Events\OrderFilled" OnRow _ _)
                  "private-k1").
    + left. reflexivity.
    + cbn. right. right. left. reflexivity.
  - cbv zeta. now rewrite H0.
Defined.

(** C4, as stated, fails: in the specification's scenario the connection
    is established and subscribed to [k1], and the inbound
    [(k1, "OrderFilled", {id: 42})] reaches no callback at all, under
    that name as under the name the [channels] table lists. *)
Lemma C4_counterexample :
  let run := establishWebSocketConnection (Scenario.answers Scenario.credentials)
               Scenario.cfg initial_process in
  let after := Transport.deliver "k1" "OrderFilled" Scenario.order_filled (snd run) in
  let after' := Transport.deliver "k1" "App\Events\OrderFilled"
                  Scenario.order_filled (snd run) in
  fst run = Returns JUndefined
  /\ In (Subscribe (JStr "k1")) (trace (snd run))
  /\ after = (Returns tt, snd run)
  /\ filter is_Invoke (trace (snd after)) = []
  /\ after' = (Returns tt, snd run).
Proof.
  vm_compute. repeat split; auto 10.
Qed.
